(** * A shallow embedding of [ExpenseManager] (spliter/spliter.py)

    The class keeps two dictionaries: [balances], a [defaultdict(float)]
    from names to net balances, and [transactions], a defaultdict whose
    values are themselves [defaultdict(float)] objects.  Python dictionaries
    are objects that are passed around by reference and that iterate in
    insertion order, so the embedding has

    - insertion-ordered association lists for dictionary contents,
    - a heap of dictionary objects addressed by location, and
    - a state-and-exception monad over that heap for the methods.

    The arithmetic is kept abstract ([Number]) and is instantiated twice:
    with the canonical rationals [Qc] for statements in exact arithmetic and
    with binary64 floats, which is what Python's [float] is.  An amount
    passed as a Python [int] becomes a float at its first use (the balances
    default to [0.0] and [/] is true division), so amounts are numbers of
    the one type throughout. *)

From Stdlib Require Import QArith Qcanon Floats.PrimFloat Uint63.
From Stdlib Require Floats.SpecFloat Floats.FloatOps Floats.FloatAxioms.
From stdpp Require Import base option list strings numbers.

Set Default Proof Using "Type*".

(** ** Numbers *)

(** The operations the source applies to amounts: [float()] (the default
    of the dictionaries), [+=], [-=], [/] by a length, and the test [> 0]. *)
Class Number (F : Type) := {
  zero : F;
  add : F → F → F;
  sub : F → F → F;
  div : F → F → F;
  of_len : nat → F;
  gt0 : F → bool
}.

(** Exact arithmetic. *)
#[global] Instance Qc_number : Number Qc := {|
  zero := 0%Qc;
  add := Qcplus;
  sub := Qcminus;
  div := Qcdiv;
  of_len := λ n, Qc_of_Z (Z.of_nat n);
  gt0 := λ x, bool_decide (0 < x)%Qc
|}.

(** IEEE 754 binary64, the arithmetic of Python's [float]. *)
#[global] Instance float_number : Number float := {|
  zero := 0%float;
  add := PrimFloat.add;
  sub := PrimFloat.sub;
  div := PrimFloat.div;
  of_len := λ n, PrimFloat.of_uint63 (Uint63.of_Z (Z.of_nat n));
  gt0 := λ x, PrimFloat.ltb 0%float x
|}.

(** ** Dictionaries: contents in insertion order *)

Module Dict.
Abbreviation t V := (list (string * V)).

Section dict.
Context {V : Type}.

(** [d.get(k)] *)
Fixpoint get (d : t V) (k : string) : option V :=
  match d with
  | [] => None
  | (k', v) :: d' => if String.eqb k' k then Some v else get d' k
  end.

(** [d[k] = v]: an existing key keeps its position, a new key goes last. *)
Fixpoint set (d : t V) (k : string) (v : V) : t V :=
  match d with
  | [] => [(k, v)]
  | (k', v') :: d' =>
      if String.eqb k' k then (k', v) :: d' else (k', v') :: set d' k v
  end.

Definition keys (d : t V) : list string := d.*1.
Definition values (d : t V) : list V := d.*2.
End dict.
End Dict.

(** ** The heap of dictionary objects *)

Abbreviation loc := nat (only parsing).

Section program.
Context {F : Type} `{!Number F}.

(** Two kinds of dictionary objects occur: those from names to numbers
    ([balances], the inner ledgers, the result of [get_balances]) and those
    from names to inner ledgers ([transactions], the result of
    [get_transactions]).  Each kind has its own region. *)
Record heap := Heap {
  floatdicts : list (Dict.t F);
  nesteddicts : list (Dict.t loc)
}.

Definition empty_heap : heap := Heap [] [].

(** The instance attributes are references. *)
Record ExpenseManager := {
  balances : loc;
  transactions : loc
}.

(** ** Exceptions and the method monad *)

Inductive exn :=
| ZeroDivisionError
| KeyError (key : string)
| InvalidReference (l : loc).

Inductive result (A : Type) :=
| Ok (a : A)
| Raise (e : exn).
#[global] Arguments Ok {A} a.
#[global] Arguments Raise {A} e.

(** A computation returns or raises, and leaves a heap behind in both
    cases. *)
Definition M (A : Type) : Type := heap → result A * heap.

#[global] Instance M_ret : MRet M := λ A a h, (Ok a, h).
#[global] Instance M_bind : MBind M := λ A B f m h,
  match m h with
  | (Ok a, h') => f a h'
  | (Raise e, h') => (Raise e, h')
  end.

Definition raise {A} (e : exn) : M A := λ h, (Raise e, h).

(** [for x in xs: body] *)
Fixpoint for_each {A} (xs : list A) (body : A → M unit) : M unit :=
  match xs with
  | [] => mret ()
  | x :: xs' => body x;; for_each xs' body
  end.

(** [for x in xs: acc = body(acc, x)] for a local accumulator. *)
Fixpoint for_fold {A B} (xs : list A) (acc : B) (body : B → A → M B) : M B :=
  match xs with
  | [] => mret acc
  | x :: xs' => acc' ← body acc x; for_fold xs' acc' body
  end.

(** *** Object access *)

Definition alloc_floatdict (d : Dict.t F) : M loc := λ h,
  (Ok (length (floatdicts h)), Heap (floatdicts h ++ [d]) (nesteddicts h)).

Definition alloc_nesteddict (d : Dict.t loc) : M loc := λ h,
  (Ok (length (nesteddicts h)), Heap (floatdicts h) (nesteddicts h ++ [d])).

Definition read_floatdict (l : loc) : M (Dict.t F) := λ h,
  match floatdicts h !! l with
  | Some d => (Ok d, h)
  | None => (Raise (InvalidReference l), h)
  end.

Definition read_nesteddict (l : loc) : M (Dict.t loc) := λ h,
  match nesteddicts h !! l with
  | Some d => (Ok d, h)
  | None => (Raise (InvalidReference l), h)
  end.

Definition write_floatdict (l : loc) (d : Dict.t F) : M unit := λ h,
  (Ok (), Heap (<[l := d]> (floatdicts h)) (nesteddicts h)).

Definition write_nesteddict (l : loc) (d : Dict.t loc) : M unit := λ h,
  (Ok (), Heap (floatdicts h) (<[l := d]> (nesteddicts h))).

(** [defaultdict(float).__getitem__]: a missing key is inserted with
    [float()] and that value is returned. *)
Definition float_getitem (l : loc) (k : string) : M F :=
  d ← read_floatdict l;
  match Dict.get d k with
  | Some v => mret v
  | None => write_floatdict l (Dict.set d k zero);; mret zero
  end.

(** [d[k] = v] *)
Definition float_setitem (l : loc) (k : string) (v : F) : M unit :=
  d ← read_floatdict l;
  write_floatdict l (Dict.set d k v).

(** [d[k] += x] and [d[k] -= x] on a [defaultdict(float)] *)
Definition float_iadd (l : loc) (k : string) (x : F) : M unit :=
  v ← float_getitem l k;
  float_setitem l k (add v x).

Definition float_isub (l : loc) (k : string) (x : F) : M unit :=
  v ← float_getitem l k;
  float_setitem l k (sub v x).

(** [defaultdict(lambda: defaultdict(float)).__getitem__]: a missing key
    is bound to a newly created inner dictionary. *)
Definition nested_getitem (l : loc) (k : string) : M loc :=
  d ← read_nesteddict l;
  match Dict.get d k with
  | Some inner => mret inner
  | None =>
      inner ← alloc_floatdict [];
      write_nesteddict l (Dict.set d k inner);;
      mret inner
  end.

(** [amount / len(participants)] *)
Definition truediv (amount : F) (n : nat) : M F :=
  match n with
  | O => raise ZeroDivisionError
  | S _ => mret (div amount (of_len n))
  end.

(** The truth value of the optional [item]: [None] and the empty string
    are false. *)
Definition truthy (item : option string) : bool :=
  match item with
  | None => false
  | Some s => negb (String.eqb s "")
  end.

(** ** The methods *)

Definition __init__ : M ExpenseManager :=
  b ← alloc_floatdict [];
  t ← alloc_nesteddict [];
  mret {| balances := b; transactions := t |}.

Definition add_expense (self : ExpenseManager) (payer : string) (amount : F)
    (participants : list string) (item : option string) : M unit :=
  split_amount ← truediv amount (length participants);
  float_iadd (balances self) payer amount;;
  for_each participants (λ person,
    if negb (String.eqb person payer) then
      float_isub (balances self) person split_amount;;
      float_isub (balances self) payer split_amount;;
      if truthy item then
        debts ← nested_getitem (transactions self) person;
        float_iadd debts payer split_amount
      else
        debts ← nested_getitem (transactions self) person;
        float_iadd debts payer split_amount
    else mret ()).

(** [dict(self.balances)]: a new dictionary object with the same items. *)
Definition get_balances (self : ExpenseManager) : M loc :=
  d ← read_floatdict (balances self);
  alloc_floatdict d.

(** [dict(self.transactions)]: a new outer dictionary whose values are the
    very inner dictionaries of [self.transactions]. *)
Definition get_transactions (self : ExpenseManager) : M loc :=
  d ← read_nesteddict (transactions self);
  alloc_nesteddict d.

(** *** [display_transactions]

    [total_debts] is local to the call and none of its dictionaries is
    shared, so it is held by value.  The method prints; here it returns
    the printed lines in order.  A line keeps the amount itself (the
    rendering with [:.2f] is not modelled), and a heading stands for the
    empty line and the heading text printed by one [print]. *)

Definition debts_table := Dict.t (Dict.t F).

(** [table[a][b] += x] and [table[a][b] -= x] on the local nested
    defaultdict: both levels insert what is missing. *)
Definition table_inner (table : debts_table) (a : string) : Dict.t F :=
  default [] (Dict.get table a).

Definition table_entry (table : debts_table) (a b : string) : F :=
  default zero (Dict.get (table_inner table a) b).

Definition table_iadd (table : debts_table) (a b : string) (x : F) : debts_table :=
  Dict.set table a (Dict.set (table_inner table a) b (add (table_entry table a b) x)).

Definition table_isub (table : debts_table) (a b : string) (x : F) : debts_table :=
  Dict.set table a (Dict.set (table_inner table a) b (sub (table_entry table a b) x)).

Inductive line :=
| Heading (text : string)
| Detailed (person payer : string) (amount : F)
| Summary (person payer : string) (total_amount : F).

(** Lines 98-99: the body of the aggregation loop. *)
Definition debit (total_debts : debts_table) (person payer : string)
    (amount : F) : debts_table :=
  table_isub (table_iadd total_debts person payer amount) payer person amount.

(** Lines 93-99: the aggregation loop. *)
Definition aggregate (self : ExpenseManager) : M debts_table :=
  items ← read_nesteddict (transactions self);
  for_fold items [] (λ total_debts '(person, debts_ref),
    debts ← read_floatdict debts_ref;
    mret (fold_left (λ total_debts '(payer, amount),
            debit total_debts person payer amount)
          debts total_debts)).

(** Lines 103-106 and 110-113: the two printing loops. *)
Definition detailed_pass (total_debts : debts_table) : list line :=
  '(person, debts) ← total_debts;
  '(payer, amount) ← debts;
  if gt0 amount then [Detailed person payer amount] else [].

Definition summary_pass (total_debts : debts_table) : list line :=
  '(person, debts) ← total_debts;
  '(payer, total_amount) ← debts;
  if gt0 total_amount then [Summary person payer total_amount] else [].

Definition display_transactions (self : ExpenseManager) : M (list line) :=
  total_debts ← aggregate self;
  mret (Heading "Detailed Transactions:" :: detailed_pass total_debts ++
        Heading "Summary of Total Amounts Owed:" :: summary_pass total_debts).

End program.

Arguments heap : clear implicits.
Arguments M : clear implicits.
Arguments debts_table : clear implicits.
Arguments line : clear implicits.

(** ** Vocabulary of the specification *)

Section observations.
Context {F : Type} `{!Number F}.
Implicit Types (self : ExpenseManager) (h : heap F) (p q : string).

(** The items of [self.balances]. *)
Definition balances_of self h : option (Dict.t F) :=
  floatdicts h !! balances self.

(** NetBalance of [p]: [self.balances.get(p, 0.0)]. *)
Definition balance self h p : F :=
  default zero (b ← balances_of self h; Dict.get b p).

(** [sum(self.balances.values())] *)
Definition total_balance self h : option F :=
  b ← balances_of self h; Some (fold_left add (Dict.values b) zero).

(** The items of the inner dictionary [self.transactions[p]]. *)
Definition debts_of self h p : option (Dict.t F) :=
  t ← nesteddicts h !! transactions self;
  l ← Dict.get t p;
  floatdicts h !! l.

(** The entry PairwiseLedger[p][q], when it exists, and its value with
    absent entries read as zero. *)
Definition owed self h p q : option F :=
  d ← debts_of self h p; Dict.get d q.

Definition owes self h p q : F := default zero (owed self h p q).

(** The whole ledger with the inner references resolved. *)
Definition transactions_of self h : option (Dict.t (Dict.t F)) :=
  t ← nesteddicts h !! transactions self;
  mapM (λ '(p, l), d ← floatdicts h !! l; Some (p, d)) t.

(** The heap with the number dictionary at [l] replaced. *)
Definition put_float (l : loc) (d : Dict.t F) h : heap F :=
  Heap (<[l := d]> (floatdicts h)) (nesteddicts h).

(** A heap in which [self] is a sound manager: both attributes refer to
    objects, dictionaries have each key once, every person has an inner
    ledger of their own, and no inner ledger is the balances object. *)
Record wf self h : Prop := {
  wf_balances :
    ∃ b, floatdicts h !! balances self = Some b ∧ NoDup (Dict.keys b);
  wf_transactions :
    ∃ t, nesteddicts h !! transactions self = Some t ∧
         NoDup (Dict.keys t) ∧ NoDup (Dict.values t) ∧
         ∀ l, l ∈ Dict.values t →
              l ≠ balances self ∧
              ∃ d, floatdicts h !! l = Some d ∧ NoDup (Dict.keys d)
}.

(** The arguments of one call of [add_expense], and a run of calls. *)
Record call := Call {
  payer_of : string;
  amount_of : F;
  participants_of : list string;
  item_of : option string
}.

Definition add_expenses self (calls : list call) : M F unit :=
  for_each calls (λ c,
    add_expense self (payer_of c) (amount_of c) (participants_of c) (item_of c)).

(** How often [p] occurs in a participants list, and how many entries of
    the list are not the payer. *)
Fixpoint times p (ps : list string) : nat :=
  match ps with
  | [] => 0
  | x :: ps' => (if String.eqb x p then 1 else 0) + times p ps'
  end.

Fixpoint others (payer : string) (ps : list string) : nat :=
  match ps with
  | [] => 0
  | x :: ps' => (if String.eqb x payer then 0 else 1) + others payer ps'
  end.

(** The items of a [defaultdict(float)] after [d[k] = f(d[k])]. *)
Definition items_update (f : F → F) (d : Dict.t F) (k : string) : Dict.t F :=
  Dict.set d k (f (default zero (Dict.get d k))).

(** The value of [split_amount] for a non-empty participants list. *)
Definition share (amount : F) (participants : list string) : F :=
  div amount (of_len (length participants)).

(** The body of the loop of [add_expense], its two equal branches on
    [item] written once. *)
Definition split_step self (payer : string) (split_amount : F)
    (person : string) : M F unit :=
  if negb (String.eqb person payer) then
    float_isub (balances self) person split_amount;;
    float_isub (balances self) payer split_amount;;
    debts ← nested_getitem (transactions self) person;
    float_iadd debts payer split_amount
  else mret ().

(** An entry of the local table [total_debts], when it exists. *)
Definition table_get (table : debts_table F) (a b : string) : option F :=
  d ← Dict.get table a; Dict.get d b.

(** The (debtor, creditor, amount) triples of the two kinds of lines. *)
Definition detailed_triples (out : list (line F)) : list (string * string * F) :=
  l ← out; match l with Detailed a b v => [(a, b, v)] | _ => [] end.

Definition summary_triples (out : list (line F)) : list (string * string * F) :=
  l ← out; match l with Summary a b v => [(a, b, v)] | _ => [] end.

(** The entries (person, payer, amount) of a resolved ledger, in iteration
    order, and the sum of the amounts recorded for the pair [(a, b)]. *)
Definition ledger_entries (ledger : Dict.t (Dict.t F)) : list (string * string * F) :=
  '(person, debts) ← ledger;
  (λ '(payer, amount), (person, payer, amount)) <$> debts.

Fixpoint flow (entries : list (string * string * F)) (a b : string) : F :=
  match entries with
  | [] => zero
  | (person, payer, amount) :: entries' =>
      if String.eqb person a && String.eqb payer b
      then add amount (flow entries' a b)
      else flow entries' a b
  end.

(** [table[a][b] = v] on the local nested defaultdict. *)
Definition table_put (table : debts_table F) (a b : string) (v : F) : debts_table F :=
  Dict.set table a (Dict.set (table_inner table a) b v).

(** The aggregation loop over the entries of the ledger. *)
Definition debit_all (entries : list (string * string * F))
    (table : debts_table F) : debts_table F :=
  fold_left (λ total_debts '(person, payer, amount),
    debit total_debts person payer amount) entries table.

(** A table with each key once on both levels. *)
Definition table_wf (table : debts_table F) : Prop :=
  NoDup (Dict.keys table) ∧ ∀ a d, (a, d) ∈ table → NoDup (Dict.keys d).

(** What the manager holds: the items of [balances] and the ledger with
    its inner dictionaries read out. *)
Definition state_of self h : option (Dict.t F) * option (Dict.t (Dict.t F)) :=
  (balances_of self h, transactions_of self h).

(** Client code on the dictionary returned by [get_transactions]:
    [snapshot[p][q] = v].  The outer dictionary is a plain [dict], which
    raises KeyError for a missing key; its values are inner ledgers. *)
Definition snapshot_setitem (snapshot : loc) p q (v : F) : M F unit :=
  d ← read_nesteddict snapshot;
  match Dict.get d p with
  | Some inner => float_setitem inner q v
  | None => raise (KeyError p)
  end.

(** A new manager that has recorded one expense. *)
Definition single_expense (payer : string) (amount : F)
    (participants : list string) (item : option string) : M F ExpenseManager :=
  self ← __init__;
  add_expense self payer amount participants item;;
  mret self.

End observations.

Arguments call : clear implicits.

(** The manager after [add_expense("A", 100, ["A", "B"])], in both
    arithmetics. *)
Definition example_manager : ExpenseManager :=
  {| balances := 0; transactions := 0 |}.

Definition example_heap : heap Qc :=
  Heap [[("A", Qc_of_Z 50); ("B", Qc_of_Z (-50))]; [("A", Qc_of_Z 50)]]
       [[("B", 1)]].

Definition example_heap_float : heap float :=
  Heap [[("A", 50%float); ("B", (-50)%float)]; [("A", 50%float)]]
       [[("B", 1)]].

(** A valid call in exact arithmetic: positive amount, somebody to split
    with. *)
Definition valid_call (c : call Qc) : Prop :=
  (0 < amount_of c)%Qc ∧ participants_of c ≠ [].

(** ** [display_balances] and what else users observe *)

(** The two further operations [display_balances] applies to a balance:
    the test [< 0] and unary minus. *)
Class Signed (F : Type) := {
  lt0 : F → bool;
  opp : F → F
}.

#[global] Instance Qc_signed : Signed Qc := {|
  lt0 := λ x, bool_decide (x < 0)%Qc;
  opp := Qcopp
|}.

#[global] Instance float_signed : Signed float := {|
  lt0 := λ x, PrimFloat.ltb x 0%float;
  opp := PrimFloat.opp
|}.

Section display_balances.
Context {F : Type} `{!Number F} `{!Signed F}.

(** The three kinds of lines, with the number that is formatted into them. *)
Inductive balance_line :=
| IsOwed (person : string) (balance : F)
| Owes (person : string) (amount : F)
| SettledUp (person : string).

(** Lines 82-87: the line for one item of [balances]. *)
Definition balance_line_of (person : string) (balance : F) : balance_line :=
  if gt0 balance then IsOwed person balance
  else if lt0 balance then Owes person (opp balance)
  else SettledUp person.

(** The method prints one line per item, in iteration order; here it
    returns them. *)
Definition display_balances (self : ExpenseManager) : M F (list balance_line) :=
  items ← read_floatdict (balances self);
  mret ((λ '(person, balance), balance_line_of person balance) <$> items).

Definition line_person (l : balance_line) : string :=
  match l with
  | IsOwed person _ | Owes person _ | SettledUp person => person
  end.

End display_balances.

Arguments balance_line : clear implicits.

Section more_observations.
Context {F : Type} `{!Number F}.
Implicit Types (self : ExpenseManager) (h : heap F) (p q : string).

(** [p in self.balances] *)
Definition known self h p : Prop :=
  ∃ b, balances_of self h = Some b ∧ is_Some (Dict.get b p).

(** [r] is a number dictionary that the manager does not use: neither its
    balances nor one of its inner ledgers. *)
Definition foreign self h (r : loc) : Prop :=
  is_Some (floatdicts h !! r) ∧ r ≠ balances self ∧
  ∀ t, nesteddicts h !! transactions self = Some t → r ∉ Dict.values t.

(** [sum(self.transactions[p].values())]: all that [p] owes according to
    the ledger, zero for a person without an inner ledger. *)
Definition owes_total self h p : F :=
  default zero (d ← debts_of self h p; Some (fold_left add (Dict.values d) zero)).

(** From [h] to [h'] the manager has kept to its own objects: a foreign
    dictionary is still foreign and has its items, an outer dictionary other
    than [transactions] has its items, and [transactions] has every binding
    it had. *)
Definition grows self h h' : Prop :=
  (∀ r, foreign self h r →
        foreign self h' r ∧ floatdicts h' !! r = floatdicts h !! r) ∧
  (∀ r, r ≠ transactions self → nesteddicts h' !! r = nesteddicts h !! r) ∧
  (∀ t p l, nesteddicts h !! transactions self = Some t → Dict.get t p = Some l →
            ∃ t', nesteddicts h' !! transactions self = Some t' ∧
                  Dict.get t' p = Some l).

(** Two heaps in which the manager shows the same numbers: every balance
    and every ledger entry agree. *)
Definition same_numbers self h1 h2 : Prop :=
  (∀ q, balance self h1 q = balance self h2 q) ∧
  (∀ p q, owed self h1 p q = owed self h2 p q).

End more_observations.

(** ** One call in the arithmetic of the code *)

Section repeated_updates.
Context {F : Type} `{!Number F}.

(** The value [v] after [n] executions of [v -= s], and after [n]
    executions of [v += s]. *)
Definition debited (n : nat) (s v : F) : F := Nat.iter n (λ v, sub v s) v.
Definition credited (n : nat) (s v : F) : F := Nat.iter n (λ v, add v s) v.

(** A valid call in any arithmetic: [amount > 0] holds and there is
    somebody to split with. *)
Definition valid_expense (c : call F) : Prop :=
  gt0 (amount_of c) = true ∧ participants_of c ≠ [].

End repeated_updates.

(** What [< 0] has to satisfy for the ledger to stay free of negative
    entries: [float()] is not negative, [+] of two numbers that are not
    negative is not negative, and neither is a positive amount divided by a
    length. *)
Definition sign_laws (F : Type) `{!Number F} `{!Signed F} : Prop :=
  lt0 (zero : F) = false ∧
  (∀ x y : F, lt0 x = false → lt0 y = false → lt0 (add x y) = false) ∧
  (∀ (amount : F) (n : nat), gt0 amount = true → lt0 (div amount (of_len n)) = false).

(** The sign of a binary64 number, read off its IEEE 754 description: not
    below zero (NaN included), above zero, and without a minus sign. *)
Definition SF_not_negative (x : SpecFloat.spec_float) : bool :=
  match x with
  | SpecFloat.S754_finite true _ _ | SpecFloat.S754_infinity true => false
  | _ => true
  end.

Definition SF_positive (x : SpecFloat.spec_float) : bool :=
  match x with
  | SpecFloat.S754_finite false _ _ | SpecFloat.S754_infinity false => true
  | _ => false
  end.

Definition SF_unsigned (x : SpecFloat.spec_float) : bool :=
  match x with
  | SpecFloat.S754_zero true | SpecFloat.S754_finite true _ _
  | SpecFloat.S754_infinity true => false
  | _ => true
  end.

(** * Theory *)

(** ** Dictionary facts *)

Ltac case_eqb :=
  repeat match goal with
  | |- context [String.eqb ?a ?b] => destruct (String.eqb_spec a b); subst
  | H : context [String.eqb ?a ?b] |- _ => destruct (String.eqb_spec a b); subst
  end.

Module DictFacts.
Section facts.
Context {V : Type}.
Implicit Types (d : Dict.t V) (k : string) (v : V).

Lemma get_set_eq d k v : Dict.get (Dict.set d k v) k = Some v.
Proof.
  induction d as [|[k' v'] d IH]; simpl; case_eqb; simpl; case_eqb; done.
Qed.

Lemma get_set_ne d k k' v : k ≠ k' → Dict.get (Dict.set d k v) k' = Dict.get d k'.
Proof.
  intros Hne. induction d as [|[k1 v1] d IH]; simpl; case_eqb; simpl; case_eqb; done.
Qed.

Lemma get_set d k k' v :
  Dict.get (Dict.set d k v) k' = if decide (k' = k) then Some v else Dict.get d k'.
Proof.
  case_decide; subst; [apply get_set_eq | by apply get_set_ne].
Qed.

Lemma get_None d k : Dict.get d k = None ↔ k ∉ Dict.keys d.
Proof.
unfold Dict.keys. induction d as [|[k' v'] d IH]; simpl.
- split; [intros _; apply not_elem_of_nil | done].
- case_eqb.
  + split; [done |]. intros []. apply elem_of_cons; by left.
  + rewrite IH. split.
    * intros Hd [?|?]%elem_of_cons; [congruence | done].
    * intros Hd ?. apply Hd, elem_of_cons. by right.
Qed.

Lemma get_Some_elem d k v : Dict.get d k = Some v → (k, v) ∈ d.
Proof.
  induction d as [|[k' v'] d IH]; simpl; [done |]. case_eqb.
  - intros [= ->]. apply elem_of_cons; by left.
  - intros. apply elem_of_cons; right; auto.
Qed.

Lemma elem_get d k v : NoDup (Dict.keys d) → (k, v) ∈ d → Dict.get d k = Some v.
Proof.
  unfold Dict.keys. induction d as [|[k' v'] d IH]; simpl.
  - intros _ H. by apply elem_of_nil in H.
  - rewrite list.NoDup_cons. intros [Hk Hd] [[= -> ->]|Hin]%elem_of_cons; case_eqb; try done.
    + exfalso. apply Hk. apply list_elem_of_fmap. by exists (k, v).
    + by apply IH.
Qed.

Lemma set_fresh d k v : Dict.get d k = None → Dict.set d k v = d ++ [(k, v)].
Proof.
  induction d as [|[k' v'] d IH]; simpl; [done |]. case_eqb; [done |].
  intros. by rewrite IH.
Qed.

Lemma set_set d k v v' : Dict.set (Dict.set d k v) k v' = Dict.set d k v'.
Proof.
  induction d as [|[k1 v1] d IH]; simpl; case_eqb; simpl; case_eqb; try done.
  by rewrite IH.
Qed.

Lemma keys_set_present d k v :
  is_Some (Dict.get d k) → Dict.keys (Dict.set d k v) = Dict.keys d.
Proof.
  unfold Dict.keys. induction d as [|[k1 v1] d IH]; csimpl.
  - by intros [? ?].
  - case_eqb; csimpl; [done |]. intros. f_equal. by apply IH.
Qed.

Lemma NoDup_keys_set d k v : NoDup (Dict.keys d) → NoDup (Dict.keys (Dict.set d k v)).
Proof.
  intros Hd. destruct (Dict.get d k) as [v0|] eqn:Hg.
  - by rewrite keys_set_present.
  - rewrite set_fresh by done. unfold Dict.keys in *. rewrite fmap_app. simpl.
    apply list.NoDup_app. split_and!; [done | | apply NoDup_singleton].
    intros x Hx [->|[]%elem_of_nil]%elem_of_cons.
    by apply get_None in Hg.
Qed.
End facts.
End DictFacts.

Module DictMore.
Import DictFacts.
Section more.
Context {V : Type}.
Implicit Types (d : Dict.t V) (k : string) (v : V).

Lemma get_values_inj d k k' v :
  NoDup (Dict.values d) → Dict.get d k = Some v → Dict.get d k' = Some v → k = k'.
Proof.
  unfold Dict.values. induction d as [|[k1 v1] d IH]; csimpl; [done |].
  rewrite list.NoDup_cons. intros [Hv Hd]. case_eqb; try done.
  - intros [= ->] H%get_Some_elem. exfalso. apply Hv.
    apply list_elem_of_fmap. by exists (k', v).
  - intros H%get_Some_elem [= ->]. exfalso. apply Hv.
    apply list_elem_of_fmap. by exists (k, v).
  - by apply IH.
Qed.

Lemma get_Some_value d k v : Dict.get d k = Some v → v ∈ Dict.values d.
Proof.
  intros H%get_Some_elem. apply list_elem_of_fmap. by exists (k, v).
Qed.

Lemma get_app_fresh d k k' v :
  Dict.get d k = None →
  Dict.get (d ++ [(k, v)]) k' = if decide (k' = k) then Some v else Dict.get d k'.
Proof. intros H. rewrite <- (set_fresh _ _ _ H). apply get_set. Qed.
Lemma elem_set d k v k' v' :
  (k', v') ∈ Dict.set d k v → (k' = k ∧ v' = v) ∨ (k', v') ∈ d.
Proof.
  induction d as [|[k1 v1] d IH]; simpl.
  - intros [[= -> ->]|[]%elem_of_nil]%elem_of_cons. by left.
  - case_eqb.
    + intros [[= -> ->]|?]%elem_of_cons; [by left |].
      right. apply elem_of_cons. by right.
    + intros [[= -> ->]|?]%elem_of_cons.
      * right. apply elem_of_cons. by left.
      * destruct IH as [?|?]; [done | by left |]. right. apply elem_of_cons. by right.
Qed.

End more.
End DictMore.

(** ** Running the heap primitives *)

Section heap_facts.
Context {F : Type} `{!Number F}.
Implicit Types (self : ExpenseManager) (h : heap F) (l : loc) (p q k : string).

Lemma bind_ok {A B} (m : M F A) (f : A → M F B) h a h' :
  m h = (Ok a, h') → (m ≫= f) h = f a h'.
Proof. unfold mbind, M_bind. by intros ->. Qed.

Lemma float_update_run (f : F → F) l k h d :
  floatdicts h !! l = Some d →
  (v ← float_getitem l k; float_setitem l k (f v)) h =
  (Ok (), put_float l (Dict.set d k (f (default zero (Dict.get d k)))) h).
Proof.
  intros Hl. pose proof (lookup_lt_Some _ _ _ Hl) as Hlt.
  unfold float_getitem, float_setitem, read_floatdict, write_floatdict, put_float.
  unfold mbind, M_bind, mret, M_ret. rewrite Hl.
  destruct (Dict.get d k) as [v|] eqn:Hg; simpl.
  - by rewrite Hl.
  - rewrite list_lookup_insert_eq by done. simpl.
    by rewrite DictFacts.set_set, list_insert_insert_eq.
Qed.

Lemma float_iadd_run l k x h d :
  floatdicts h !! l = Some d →
  float_iadd l k x h =
  (Ok (), put_float l (Dict.set d k (add (default zero (Dict.get d k)) x)) h).
Proof. apply (float_update_run (λ v, add v x)). Qed.

Lemma float_isub_run l k x h d :
  floatdicts h !! l = Some d →
  float_isub l k x h =
  (Ok (), put_float l (Dict.set d k (sub (default zero (Dict.get d k)) x)) h).
Proof. apply (float_update_run (λ v, sub v x)). Qed.

Lemma nested_getitem_present l k h t inner :
  nesteddicts h !! l = Some t → Dict.get t k = Some inner →
  nested_getitem l k h = (Ok inner, h).
Proof.
  intros Hl Hk. unfold nested_getitem, mbind, M_bind, read_nesteddict.
  by rewrite Hl, Hk.
Qed.

Lemma nested_getitem_missing l k h t :
  nesteddicts h !! l = Some t → Dict.get t k = None →
  nested_getitem l k h =
  (Ok (length (floatdicts h)),
   Heap (floatdicts h ++ [[]])
        (<[l := t ++ [(k, length (floatdicts h))]]> (nesteddicts h))).
Proof.
  intros Hl Hk. unfold nested_getitem, mbind, M_bind, read_nesteddict.
  rewrite Hl, Hk. simpl. by rewrite DictFacts.set_fresh.
Qed.

End heap_facts.

(** ** Updates of a sound manager *)

Section wf_facts.
Context {F : Type} `{!Number F}.
Implicit Types (self : ExpenseManager) (h : heap F) (l : loc) (p q k : string).

Lemma wf_inner self h t p l :
  wf self h → nesteddicts h !! transactions self = Some t → Dict.get t p = Some l →
  l ≠ balances self ∧ ∃ d, floatdicts h !! l = Some d ∧ NoDup (Dict.keys d).
Proof.
  intros [_ (t' & Ht' & _ & _ & Hin)] Ht Hp.
  rewrite Ht in Ht'. injection Ht' as <-.
  apply Hin. by eapply DictMore.get_Some_value.
Qed.

Lemma owed_debts self h h' :
  (∀ p, debts_of self h' p = debts_of self h p) →
  ∀ p q, owed self h' p q = owed self h p q.
Proof. intros H p q. unfold owed. by rewrite H. Qed.

(** [self.balances[k] = f(self.balances[k])] *)
Lemma balance_update (f : F → F) self k h :
  wf self h →
  ∃ h', (v ← float_getitem (balances self) k;
         float_setitem (balances self) k (f v)) h = (Ok (), h') ∧
        wf self h' ∧
        (∀ q, balance self h' q =
              if decide (q = k) then f (balance self h k) else balance self h q) ∧
        (∀ p, debts_of self h' p = debts_of self h p).
Proof.
  intros Hwf. pose proof Hwf as [(b & Hb & Hnd) (t & Ht & Hk & Hv & Hin)].
  pose proof (lookup_lt_Some _ _ _ Hb) as Hlt.
  eexists. split; [by apply float_update_run |].
  split; [constructor |split]; simpl.
  - eexists. split; [by apply list_lookup_insert_eq |].
    by apply DictFacts.NoDup_keys_set.
  - exists t. split_and!; try done. intros l Hl.
    destruct (Hin l Hl) as (Hne & d & Hd & Hdk). split; [done |].
    exists d. by rewrite list_lookup_insert_ne.
  - intros q. unfold balance, balances_of, put_float. simpl.
    rewrite list_lookup_insert_eq, Hb by done. simpl.
    rewrite DictFacts.get_set. by case_decide; subst.
  - intros p. unfold debts_of, put_float. simpl. rewrite Ht. simpl.
    destruct (Dict.get t p) as [l|] eqn:Hp; simpl; [|done].
    destruct (wf_inner _ _ _ _ _ Hwf Ht Hp) as [Hne _].
    by rewrite list_lookup_insert_ne.
Qed.

(** [self.transactions[p]] on a sound manager returns the inner ledger of
    [p], creating an empty one when there is none. *)
Lemma nested_getitem_wf self p h :
  wf self h →
  ∃ l h1, nested_getitem (transactions self) p h = (Ok l, h1) ∧
          wf self h1 ∧
          (∃ t1, nesteddicts h1 !! transactions self = Some t1 ∧
                 Dict.get t1 p = Some l) ∧
          balances_of self h1 = balances_of self h ∧
          (∀ p' q, owed self h1 p' q = owed self h p' q).
Proof.
  intros Hwf. pose proof Hwf as [(b & Hb & Hnd) (t & Ht & Hk & Hv & Hin)].
  pose proof (lookup_lt_Some _ _ _ Hb) as Hblt.
  pose proof (lookup_lt_Some _ _ _ Ht) as Htlt.
  destruct (Dict.get t p) as [l|] eqn:Hp.
  - exists l, h. split; [by eapply nested_getitem_present |].
    split_and!; eauto.
  - eexists _, _. split; [by eapply nested_getitem_missing |].
    assert (Hfresh : length (floatdicts h) ∉ Dict.values t).
    { intros Hl. destruct (Hin _ Hl) as (_ & d & Hd%lookup_lt_Some & _). lia. }
    split_and!.
    + constructor; simpl.
      * exists b. split; [by apply lookup_app_l_Some | done].
      * eexists. split; [by apply list_lookup_insert_eq |].
        unfold Dict.keys, Dict.values in *. rewrite !fmap_app. simpl.
        split_and!.
        -- apply list.NoDup_app. split_and!; [done | | apply NoDup_singleton].
           intros x Hx [->|[]%elem_of_nil]%elem_of_cons.
           by apply DictFacts.get_None in Hp.
        -- apply list.NoDup_app. split_and!; [done | | apply NoDup_singleton].
           by intros x Hx [->|[]%elem_of_nil]%elem_of_cons.
        -- intros l [Hl|[->|[]%elem_of_nil]%elem_of_cons]%elem_of_app.
           ++ destruct (Hin l Hl) as (Hne & d & Hd & Hdk). split; [done |].
              exists d. split; [by apply lookup_app_l_Some | done].
           ++ split; [lia |]. exists []. split; [|apply list.NoDup_nil; done].
              by apply list_lookup_middle.
    + simpl. eexists. split; [by apply list_lookup_insert_eq |].
      rewrite DictMore.get_app_fresh by done. by rewrite decide_True.
    + unfold balances_of. simpl. rewrite Hb. by apply lookup_app_l_Some.
    + intros p' q. unfold owed, debts_of. simpl.
      rewrite list_lookup_insert_eq, Ht by done. simpl.
      rewrite DictMore.get_app_fresh by done. case_decide; subst.
      * rewrite Hp. simpl. by rewrite list_lookup_middle.
      * destruct (Dict.get t p') as [l|] eqn:Hp'; simpl; [|done].
        destruct (wf_inner _ _ _ _ _ Hwf Ht Hp') as (_ & d & Hd & _).
        by rewrite (lookup_app_l_Some _ _ _ _ Hd), Hd.
Qed.

(** [debts[k] = f(debts[k])] on the inner ledger of [p]. *)
Lemma inner_update (f : F → F) self p l k h t :
  wf self h →
  nesteddicts h !! transactions self = Some t → Dict.get t p = Some l →
  ∃ h', (v ← float_getitem l k; float_setitem l k (f v)) h = (Ok (), h') ∧
        wf self h' ∧
        balances_of self h' = balances_of self h ∧
        (∀ p' q, owed self h' p' q =
                 if decide (p' = p ∧ q = k) then Some (f (owes self h p k))
                 else owed self h p' q).
Proof.
  intros Hwf Ht Hp. pose proof Hwf as [(b & Hb & Hnd) (t' & Ht' & Hk & Hv & Hin)].
  rewrite Ht in Ht'. injection Ht' as <-.
  destruct (wf_inner _ _ _ _ _ Hwf Ht Hp) as (Hne & d & Hd & Hdk).
  pose proof (lookup_lt_Some _ _ _ Hd) as Hlt.
  eexists. split; [by apply float_update_run |].
  split_and!.
  - constructor; simpl.
    + exists b. by rewrite list_lookup_insert_ne.
    + exists t. split_and!; try done. intros l' Hl'.
      destruct (Hin l' Hl') as (Hne' & d' & Hd' & Hdk'). split; [done |].
      destruct (decide (l' = l)) as [->|Hll].
      * eexists. split; [by apply list_lookup_insert_eq |].
        by apply DictFacts.NoDup_keys_set.
      * exists d'. by rewrite list_lookup_insert_ne.
  - unfold balances_of, put_float. simpl. by rewrite list_lookup_insert_ne.
  - intros p' q. unfold owes, owed, debts_of, put_float. simpl.
    rewrite Ht. simpl. rewrite Hp. simpl. rewrite Hd. simpl.
    destruct (Dict.get t p') as [l'|] eqn:Hp'; simpl.
    + destruct (decide (l' = l)) as [->|Hll].
      * assert (p' = p) as -> by (by eapply DictMore.get_values_inj).
        rewrite list_lookup_insert_eq by done. simpl.
        rewrite DictFacts.get_set.
        case_decide; subst; [by rewrite decide_True |].
        rewrite decide_False; [by rewrite Hd | by intros [_ ?]].
      * rewrite list_lookup_insert_ne by done.
        rewrite decide_False; [done |]. intros [-> ->]. congruence.
    + rewrite decide_False; [done |]. intros [-> ->]. congruence.
Qed.

Lemma balance_update_items (f : F → F) self k h h' b :
  balances_of self h = Some b →
  (v ← float_getitem (balances self) k;
   float_setitem (balances self) k (f v)) h = (Ok (), h') →
  balances_of self h' = Some (items_update f b k).
Proof.
  unfold balances_of. intros Hb. rewrite (float_update_run f _ k h b Hb).
  intros [= <-]. simpl. apply list_lookup_insert_eq. by eapply lookup_lt_Some.
Qed.

End wf_facts.

(** ** One round of the splitting loop *)

Section split_facts.
Context {F : Type} `{!Number F}.
Implicit Types (self : ExpenseManager) (h : heap F) (p q payer person : string).

Lemma add_expense_unfold self payer amount ps item :
  add_expense self payer amount ps item =
  (split_amount ← truediv amount (length ps);
   float_iadd (balances self) payer amount;;
   for_each ps (split_step self payer split_amount)).
Proof. unfold add_expense, split_step. by destruct (truthy item). Qed.

Lemma balance_of_balances self h h' :
  balances_of self h' = balances_of self h → ∀ q, balance self h' q = balance self h q.
Proof. intros H q. unfold balance. by rewrite H. Qed.

Lemma split_step_payer self payer s h :
  split_step self payer s payer h = (Ok (), h).
Proof. unfold split_step. by rewrite String.eqb_refl. Qed.

Lemma split_step_other self payer s person h :
  wf self h → person ≠ payer →
  ∃ h', split_step self payer s person h = (Ok (), h') ∧
        wf self h' ∧
        (∀ q, balance self h' q =
              if decide (q = payer) then sub (balance self h payer) s
              else if decide (q = person) then sub (balance self h person) s
              else balance self h q) ∧
        (∀ p q, owed self h' p q =
                if decide (p = person ∧ q = payer)
                then Some (add (owes self h person payer) s)
                else owed self h p q).
Proof.
  intros Hwf Hne.
  destruct (balance_update (λ v, sub v s) self person h Hwf)
    as (h1 & Hrun1 & Hwf1 & Hbal1 & Hdebts1).
  destruct (balance_update (λ v, sub v s) self payer h1 Hwf1)
    as (h2 & Hrun2 & Hwf2 & Hbal2 & Hdebts2).
  destruct (nested_getitem_wf self person h2 Hwf2)
    as (l & h3 & Hrun3 & Hwf3 & (t3 & Ht3 & Hl3) & Hbal3 & Howed3).
  destruct (inner_update (λ v, add v s) self person l payer h3 t3 Hwf3 Ht3 Hl3)
    as (h4 & Hrun4 & Hwf4 & Hbal4 & Howed4).
  exists h4. split_and!; [| done | |].
  - unfold split_step. apply String.eqb_neq in Hne. rewrite Hne. simpl.
    rewrite (bind_ok _ _ _ _ _ Hrun1), (bind_ok _ _ _ _ _ Hrun2).
    by rewrite (bind_ok _ _ _ _ _ Hrun3).
  - intros q. rewrite (balance_of_balances _ _ _ Hbal4).
    rewrite (balance_of_balances _ _ _ Hbal3), Hbal2, !Hbal1.
    rewrite (decide_False (P := payer = person)) by done.
    by repeat case_decide; subst.
  - intros p q. rewrite Howed4. unfold owes. rewrite !Howed3.
    by rewrite !(owed_debts _ _ _ Hdebts2), !(owed_debts _ _ _ Hdebts1).
Qed.

Lemma truediv_run (amount : F) (ps : list string) h :
  ps ≠ [] → truediv amount (length ps) h = (Ok (share amount ps), h).
Proof. by destruct ps. Qed.

Lemma split_step_items self payer s person h h' b :
  wf self h → person ≠ payer →
  balances_of self h = Some b →
  split_step self payer s person h = (Ok (), h') →
  balances_of self h' =
  Some (items_update (λ v, sub v s) (items_update (λ v, sub v s) b person) payer).
Proof.
  intros Hwf Hne Hb.
  destruct (balance_update (λ v, sub v s) self person h Hwf)
    as (h1 & Hrun1 & Hwf1 & _).
  destruct (balance_update (λ v, sub v s) self payer h1 Hwf1)
    as (h2 & Hrun2 & Hwf2 & _).
  destruct (nested_getitem_wf self person h2 Hwf2)
    as (l & h3 & Hrun3 & Hwf3 & (t3 & Ht3 & Hl3) & Hbal3 & _).
  destruct (inner_update (λ v, add v s) self person l payer h3 t3 Hwf3 Ht3 Hl3)
    as (h4 & Hrun4 & _ & Hbal4 & _).
  unfold split_step. apply String.eqb_neq in Hne. rewrite Hne. simpl.
  rewrite (bind_ok _ _ _ _ _ Hrun1), (bind_ok _ _ _ _ _ Hrun2).
  rewrite (bind_ok _ _ _ _ _ Hrun3).
  change (float_iadd l payer s h3) with
    ((v ← float_getitem l payer; float_setitem l payer (add v s)) h3).
  rewrite Hrun4. intros [= <-]. rewrite Hbal4, Hbal3.
  eapply balance_update_items; [|exact Hrun2].
  by eapply balance_update_items.
Qed.

(** Sound managers stay sound under [add_expense], in any arithmetic. *)
Lemma split_loop_wf self payer s ps h :
  wf self h →
  ∃ h', for_each ps (split_step self payer s) h = (Ok (), h') ∧ wf self h'.
Proof.
  revert h. induction ps as [|x ps IH]; intros h Hwf; [by exists h |].
  cbn [for_each]. destruct (decide (x = payer)) as [->|Hx].
  - rewrite (bind_ok _ _ _ _ _ (split_step_payer self payer s h)). by apply IH.
  - destruct (split_step_other self payer s x h Hwf Hx) as (h1 & Hrun1 & Hwf1 & _).
    rewrite (bind_ok _ _ _ _ _ Hrun1). by apply IH.
Qed.

Lemma add_expense_wf self payer (amount : F) ps item h :
  wf self h → ps ≠ [] →
  ∃ h', add_expense self payer amount ps item h = (Ok (), h') ∧ wf self h'.
Proof.
  intros Hwf Hps.
  destruct (balance_update (λ v, add v amount) self payer h Hwf)
    as (h1 & Hrun1 & Hwf1 & _).
  rewrite add_expense_unfold.
  rewrite (bind_ok _ _ _ _ _ (truediv_run amount ps h Hps)).
  rewrite (bind_ok _ _ _ _ _ Hrun1). by apply split_loop_wf.
Qed.

Lemma init_run (h0 : heap F) :
  __init__ h0 =
  (Ok {| balances := length (floatdicts h0); transactions := length (nesteddicts h0) |},
   Heap (floatdicts h0 ++ [[]]) (nesteddicts h0 ++ [[]])).
Proof. done. Qed.

Lemma init_fresh (h0 : heap F) self h :
  __init__ h0 = (Ok self, h) →
  wf self h ∧ balances_of self h = Some [] ∧ transactions_of self h = Some [] ∧
  (∀ q, balance self h q = zero) ∧ (∀ p q, owed self h p q = None).
Proof.
  rewrite init_run. intros [= <- <-].
  unfold balances_of, transactions_of, balance, balances_of, owed, debts_of. simpl.
  rewrite !list_lookup_middle by done. split_and!; try done.
  constructor; simpl; rewrite list_lookup_middle by done.
  - exists []. split; [done | apply list.NoDup_nil; done].
  - exists []. split_and!; try done; try (apply list.NoDup_nil; done).
    by intros l ?%elem_of_nil.
Qed.

Lemma init_ok (h0 : heap F) :
  ∃ self h, __init__ h0 = (Ok self, h) ∧ wf self h ∧
            (∀ q, balance self h q = zero) ∧ (∀ p q, owed self h p q = None).
Proof.
  eexists _, _. split; [apply init_run |].
  by destruct (init_fresh h0 _ _ (init_run h0)) as (? & _ & _ & ? & ?).
Qed.

End split_facts.

(** ** The whole of [add_expense] in exact arithmetic *)

Section exact.
Local Open Scope Qc_scope.
Implicit Types (self : ExpenseManager) (h : heap Qc) (p q payer person : string).
Implicit Types (s amount : Qc) (ps : list string).

Lemma of_len_0 : (of_len 0 : Qc) = 0.
Proof. apply Z2Qc_inj_0. Qed.

Lemma of_len_add (n m : nat) : (of_len (n + m) : Qc) = of_len n + of_len m.
Proof. simpl. by rewrite Nat2Z.inj_add, Z2Qc_inj_add. Qed.

Lemma of_len_1 : (of_len 1 : Qc) = 1.
Proof. apply Z2Qc_inj_1. Qed.

Lemma of_len_pos (n : nat) : (0 < n)%nat → 0 < (of_len n : Qc).
Proof. intros. simpl. rewrite <- Z2Qc_inj_0, <- Z2Qc_inj_lt. lia. Qed.

Lemma times_pos p ps : p ∈ ps → (0 < times p ps)%nat.
Proof.
  induction ps as [|x ps IH]; simpl.
  - by intros ?%elem_of_nil.
  - intros [->|?]%elem_of_cons; [rewrite String.eqb_refl; lia |].
    specialize (IH ltac:(done)). lia.
Qed.

Lemma times_absent p ps : p ∉ ps → times p ps = 0%nat.
Proof.
  induction ps as [|x ps IH]; simpl; [done |].
  intros [? ?]%not_elem_of_cons. rewrite IH by done.
  destruct (String.eqb_spec x p); [congruence | done].
Qed.

Lemma times_NoDup p ps : NoDup ps → p ∈ ps → times p ps = 1%nat.
Proof.
  induction ps as [|x ps IH]; simpl.
  - by intros _ ?%elem_of_nil.
  - rewrite list.NoDup_cons. intros [Hx Hps] [->|Hin]%elem_of_cons.
    + by rewrite String.eqb_refl, times_absent.
    + rewrite IH by done. destruct (String.eqb_spec x p); [congruence | done].
Qed.

Lemma others_absent payer ps : payer ∉ ps → others payer ps = length ps.
Proof.
  induction ps as [|x ps IH]; simpl; [done |].
  intros [? ?]%not_elem_of_cons. rewrite IH by done.
  destruct (String.eqb_spec x payer); [congruence | done].
Qed.

Lemma split_loop self payer s ps h :
  wf self h →
  ∃ h', for_each ps (split_step self payer s) h = (Ok (), h') ∧
        wf self h' ∧
        (∀ q, balance self h' q =
              balance self h q -
              (if decide (q = payer) then of_len (others payer ps)
               else of_len (times q ps)) * s) ∧
        (∀ p q, owed self h' p q =
                if decide (q = payer ∧ p ≠ payer ∧ p ∈ ps)
                then Some (owes self h p q + of_len (times p ps) * s)
                else owed self h p q).
Proof.
  revert h. induction ps as [|x ps IH]; intros h Hwf.
  - exists h. split_and!; try done.
    + intros q. cbn [others times]. rewrite of_len_0. case_decide; ring.
    + intros p q. rewrite decide_False; [done |]. by intros (_ & _ & ?%elem_of_nil).
  - destruct (decide (x = payer)) as [->|Hx].
    + destruct (IH h Hwf) as (h' & Hrun & Hwf' & Hbal & Howed).
      exists h'. split_and!; [| done | |].
      * cbn [for_each]. by rewrite (bind_ok _ _ _ _ _ (split_step_payer self payer s h)).
      * intros q. rewrite Hbal. cbn [others times]. rewrite String.eqb_refl.
        case_decide; [done |].
        destruct (String.eqb_spec payer q); [congruence | done].
      * intros p q. rewrite Howed. cbn [times].
        destruct (String.eqb_spec payer p) as [<-|Hp].
        -- rewrite !decide_False; [done | |]; by intros (_ & ? & _).
        -- apply decide_ext. rewrite elem_of_cons.
           split; [intros (? & ? & ?); auto | intros (? & ? & [?|?]); [by subst | auto]].
    + destruct (split_step_other self payer s x h Hwf Hx)
        as (h1 & Hrun1 & Hwf1 & Hbal1 & Howed1).
      destruct (IH h1 Hwf1) as (h' & Hrun & Hwf' & Hbal & Howed).
      exists h'. split_and!; [| done | |].
      * cbn [for_each]. by rewrite (bind_ok _ _ _ _ _ Hrun1).
      * intros q. rewrite Hbal, Hbal1. cbn [others times].
        destruct (String.eqb_spec x payer); [done |].
        rewrite !of_len_add. cbn [sub Qc_number].
        case_decide; subst.
        -- rewrite of_len_1. ring.
        -- destruct (String.eqb_spec x q) as [->|Hq].
           ++ rewrite decide_True, of_len_1 by done. ring.
           ++ rewrite decide_False, of_len_0 by done. ring.
      * intros p q. rewrite Howed. unfold owes at 1. rewrite !Howed1.
        cbn [times add Qc_number]. rewrite of_len_add.
        destruct (decide (q = payer)) as [->|Hq].
        2: { rewrite (decide_False (P := q = payer ∧ p ≠ payer ∧ p ∈ ps))
               by (by intros (? & _)).
             rewrite (decide_False (P := q = payer ∧ p ≠ payer ∧ p ∈ x :: ps))
               by (by intros (? & _)).
             by rewrite (decide_False (P := p = x ∧ q = payer))
               by (by intros (_ & ?)). }
        destruct (String.eqb_spec x p) as [->|Hxp].
        -- rewrite (decide_True (P := p = p ∧ payer = payer)) by done.
           rewrite (decide_True (P := payer = payer ∧ p ≠ payer ∧ p ∈ p :: ps)).
           2: { split_and!; try done. apply elem_of_cons. by left. }
           destruct (decide (p ∈ ps)) as [Hin|Hin].
           ++ rewrite decide_True by done. rewrite of_len_1. simpl. f_equal. ring.
           ++ rewrite decide_False by (by intros (_ & _ & ?)).
              rewrite times_absent, of_len_0, of_len_1 by done. f_equal. unfold owes. ring.
        -- rewrite (decide_False (P := p = x ∧ payer = payer)) by (by intros [-> _]).
           rewrite of_len_0.
           destruct (decide (payer = payer ∧ p ≠ payer ∧ p ∈ ps)) as [(_ & ? & ?)|Hn].
           ++ rewrite decide_True.
              2: { split_and!; try done. apply elem_of_cons. by right. }
              f_equal. unfold owes. ring.
           ++ rewrite decide_False; [done |].
              intros (_ & ? & [->|?]%elem_of_cons); [done |]. by apply Hn.
Qed.

Lemma add_expense_effect self payer amount ps item h :
  wf self h → ps ≠ [] →
  ∃ h', add_expense self payer amount ps item h = (Ok (), h') ∧
        wf self h' ∧
        (∀ q, balance self h' q =
              balance self h q +
              (if decide (q = payer)
               then amount - of_len (others payer ps) * share amount ps
               else - (of_len (times q ps) * share amount ps))) ∧
        (∀ p q, owed self h' p q =
                if decide (q = payer ∧ p ≠ payer ∧ p ∈ ps)
                then Some (owes self h p q + of_len (times p ps) * share amount ps)
                else owed self h p q).
Proof.
  intros Hwf Hps.
  destruct (balance_update (λ v, add v amount) self payer h Hwf)
    as (h1 & Hrun1 & Hwf1 & Hbal1 & Hdebts1).
  destruct (split_loop self payer (share amount ps) ps h1 Hwf1)
    as (h' & Hrun & Hwf' & Hbal & Howed).
  exists h'. split_and!; [| done | |].
  - rewrite add_expense_unfold.
    rewrite (bind_ok _ _ _ _ _ (truediv_run amount ps h Hps)).
    by rewrite (bind_ok _ _ _ _ _ Hrun1).
  - intros q. rewrite Hbal, Hbal1. cbn [add Qc_number].
    case_decide; subst; ring.
  - intros p q. rewrite Howed. unfold owes.
    by rewrite !(owed_debts _ _ _ Hdebts1).
Qed.

(** The sum of the balances. *)
Lemma sum_shift (l : list Qc) (a : Qc) :
  fold_left Qcplus l a = a + fold_left Qcplus l 0.
Proof.
  revert a. induction l as [|x l IH]; intros a; simpl; [ring |].
  rewrite (IH (a + x)), (IH (0 + x)). ring.
Qed.

Lemma sum_set (d : Dict.t Qc) k v :
  fold_left Qcplus (Dict.values (Dict.set d k v)) 0 =
  fold_left Qcplus (Dict.values d) 0 - default 0 (Dict.get d k) + v.
Proof.
  unfold Dict.values. induction d as [|[k' v'] d IH]; csimpl.
  - ring.
  - destruct (String.eqb_spec k' k) as [->|Hk]; csimpl.
    + rewrite (sum_shift _ (0 + v)), (sum_shift _ (0 + v')). ring.
    + rewrite (sum_shift _ (0 + v')), IH, (sum_shift (d.*2) (0 + v')). ring.
Qed.

Lemma sum_items_update (f : Qc → Qc) (d : Dict.t Qc) k :
  fold_left Qcplus (Dict.values (items_update f d k)) 0 =
  fold_left Qcplus (Dict.values d) 0
  - default 0 (Dict.get d k) + f (default 0 (Dict.get d k)).
Proof. apply sum_set. Qed.

Lemma total_balance_items self h b :
  balances_of self h = Some b →
  total_balance self h = Some (fold_left Qcplus (Dict.values b) 0).
Proof. unfold total_balance. by intros ->. Qed.

Lemma split_loop_total self payer s ps h t :
  wf self h → total_balance self h = Some t →
  ∃ h', for_each ps (split_step self payer s) h = (Ok (), h') ∧
        wf self h' ∧
        total_balance self h' = Some (t - (1 + 1) * of_len (others payer ps) * s).
Proof.
  revert h t. induction ps as [|x ps IH]; intros h t Hwf Ht.
  - exists h. split_and!; [done.. |]. rewrite Ht. f_equal.
    cbn [others]. rewrite of_len_0. ring.
  - cbn [for_each others]. destruct (decide (x = payer)) as [->|Hx].
    + rewrite (bind_ok _ _ _ _ _ (split_step_payer self payer s h)).
      rewrite String.eqb_refl. by apply IH.
    + destruct (split_step_other self payer s x h Hwf Hx) as (h1 & Hrun1 & Hwf1 & _).
      rewrite (bind_ok _ _ _ _ _ Hrun1).
      rewrite (proj2 (String.eqb_neq x payer) Hx).
      pose proof Hwf as [(b & Hb & _) _].
      pose proof (split_step_items self payer s x h h1 b Hwf Hx Hb Hrun1) as Hb1.
      rewrite (total_balance_items _ _ _ Hb) in Ht. injection Ht as <-.
      destruct (IH h1 _ Hwf1 (total_balance_items _ _ _ Hb1)) as (h' & Hrun & Hwf' & Ht').
      exists h'. split_and!; [done.. |]. rewrite Ht'. f_equal.
      rewrite !sum_items_update. unfold items_update.
      rewrite !DictFacts.get_set_ne by done.
      rewrite of_len_add, of_len_1. cbn [sub Qc_number]. ring.
Qed.

(** One call changes the sum of the balances by the amount minus two
    shares for every listed participant other than the payer. *)
Lemma add_expense_total self payer amount ps item h t :
  wf self h → ps ≠ [] → total_balance self h = Some t →
  ∃ h', add_expense self payer amount ps item h = (Ok (), h') ∧
        wf self h' ∧
        total_balance self h' =
          Some (t + amount - (1 + 1) * of_len (others payer ps) * share amount ps).
Proof.
  intros Hwf Hps Ht. pose proof Hwf as [(b & Hb & _) _].
  destruct (balance_update (λ v, add v amount) self payer h Hwf)
    as (h1 & Hrun1 & Hwf1 & _).
  pose proof (balance_update_items _ self payer h h1 b Hb Hrun1) as Hb1.
  rewrite (total_balance_items _ _ _ Hb) in Ht. injection Ht as <-.
  destruct (split_loop_total self payer (share amount ps) ps h1 _ Hwf1
              (total_balance_items _ _ _ Hb1)) as (h' & Hrun & Hwf' & Ht').
  exists h'. split_and!; [| done |].
  - rewrite add_expense_unfold.
    rewrite (bind_ok _ _ _ _ _ (truediv_run amount ps h Hps)).
    by rewrite (bind_ok _ _ _ _ _ Hrun1).
  - rewrite Ht'. f_equal. rewrite sum_items_update. cbn [add Qc_number]. ring.
Qed.

Lemma share_pos amount ps : 0 < amount → ps ≠ [] → 0 < share amount ps.
Proof.
  intros Ha Hps. unfold share. cbn [div Qc_number]. unfold Qcdiv.
  apply Qcmult_pos_pos; [done |]. apply Qcinv_pos, of_len_pos.
  destruct ps; [done | simpl; lia].
Qed.

Lemma share_total amount ps : ps ≠ [] → of_len (length ps) * share amount ps = amount.
Proof.
  intros Hps. unfold share. cbn [div Qc_number]. field.
  apply not_eq_sym, Qclt_not_eq, of_len_pos. destruct ps; [done | simpl; lia].
Qed.

(** Entries of the ledger only grow under valid calls. *)
Lemma add_expenses_positive self (calls : list (call Qc)) h :
  wf self h → Forall valid_call calls →
  (∀ p q v, owed self h p q = Some v → 0 < v) →
  ∃ h', add_expenses self calls h = (Ok (), h') ∧
        wf self h' ∧
        (∀ p q v, owed self h' p q = Some v → 0 < v).
Proof.
  intros Hwf Hvalid. revert h Hwf.
  induction Hvalid as [|c calls [Hamount Hps] _ IH]; intros h Hwf Hpos.
  - by exists h.
  - destruct (add_expense_effect self (payer_of c) (amount_of c)
                (participants_of c) (item_of c) h Hwf Hps)
      as (h1 & Hrun1 & Hwf1 & _ & Howed1).
    destruct (IH h1 Hwf1) as (h' & Hrun & Hwf' & Hpos').
    + intros p q v. rewrite Howed1. case_decide as Hc; [|apply Hpos].
      destruct Hc as (_ & _ & Hin). intros [= <-].
      apply Qcplus_nonneg_pos.
      * unfold owes. destruct (owed self h p q) as [v|] eqn:Hv; simpl; [|done].
        apply Qclt_le_weak. by eapply Hpos.
      * apply Qcmult_pos_pos; [|by apply share_pos].
        by apply of_len_pos, times_pos.
    + exists h'. split_and!; try done.
      unfold add_expenses in *. cbn [for_each].
      by rewrite (bind_ok _ _ _ _ _ Hrun1).
Qed.

End exact.

(** ** The whole of [add_expense] in any arithmetic *)

Section any_arithmetic.
Context {F : Type} `{!Number F}.
Implicit Types (self : ExpenseManager) (h : heap F) (p q payer person : string).
Implicit Types (s amount : F) (ps : list string).

Lemma debited_S n s (v : F) : debited (S n) s v = debited n s (sub v s).
Proof. exact (Nat.iter_succ_r n (λ v, sub v s) v). Qed.

Lemma credited_S n s (v : F) : credited (S n) s v = credited n s (add v s).
Proof. exact (Nat.iter_succ_r n (λ v, add v s) v). Qed.

Lemma split_loop_any self payer s ps h :
  wf self h →
  ∃ h', for_each ps (split_step self payer s) h = (Ok (), h') ∧
        wf self h' ∧
        (∀ q, balance self h' q =
              debited (if decide (q = payer) then others payer ps else times q ps)
                      s (balance self h q)) ∧
        (∀ p q, owed self h' p q =
                if decide (q = payer ∧ p ≠ payer ∧ p ∈ ps)
                then Some (credited (times p ps) s (owes self h p q))
                else owed self h p q).
Proof.
  revert h. induction ps as [|x ps IH]; intros h Hwf.
  - exists h. split_and!; try done.
    + intros q. cbn [others times]. by case_decide.
    + intros p q. rewrite decide_False; [done |]. by intros (_ & _ & ?%elem_of_nil).
  - destruct (decide (x = payer)) as [->|Hx].
    + destruct (IH h Hwf) as (h' & Hrun & Hwf' & Hbal & Howed).
      exists h'. split_and!; [| done | |].
      * cbn [for_each]. by rewrite (bind_ok _ _ _ _ _ (split_step_payer self payer s h)).
      * intros q. rewrite Hbal. cbn [others times]. rewrite String.eqb_refl.
        case_decide; [done |].
        destruct (String.eqb_spec payer q); [congruence | done].
      * intros p q. rewrite Howed. cbn [times].
        destruct (String.eqb_spec payer p) as [<-|Hp].
        -- rewrite !decide_False; [done | |]; by intros (_ & ? & _).
        -- apply decide_ext. rewrite elem_of_cons.
           split; [intros (? & ? & ?); auto | intros (? & ? & [?|?]); [by subst | auto]].
    + destruct (split_step_other self payer s x h Hwf Hx)
        as (h1 & Hrun1 & Hwf1 & Hbal1 & Howed1).
      destruct (IH h1 Hwf1) as (h' & Hrun & Hwf' & Hbal & Howed).
      exists h'. split_and!; [| done | |].
      * cbn [for_each]. by rewrite (bind_ok _ _ _ _ _ Hrun1).
      * intros q. rewrite Hbal, Hbal1. cbn [others times].
        destruct (String.eqb_spec x payer); [done |].
        case_decide; subst.
        -- by rewrite debited_S.
        -- destruct (String.eqb_spec x q) as [->|Hq].
           ++ by rewrite decide_True, debited_S by done.
           ++ by rewrite decide_False by done.
      * intros p q. rewrite Howed. unfold owes at 1. rewrite !Howed1.
        cbn [times].
        destruct (decide (q = payer)) as [->|Hq].
        2: { rewrite (decide_False (P := q = payer ∧ p ≠ payer ∧ p ∈ ps))
               by (by intros (? & _)).
             rewrite (decide_False (P := q = payer ∧ p ≠ payer ∧ p ∈ x :: ps))
               by (by intros (? & _)).
             by rewrite (decide_False (P := p = x ∧ q = payer))
               by (by intros (_ & ?)). }
        destruct (String.eqb_spec x p) as [->|Hxp].
        -- rewrite (decide_True (P := p = p ∧ payer = payer)) by done.
           rewrite (decide_True (P := payer = payer ∧ p ≠ payer ∧ p ∈ p :: ps)).
           2: { split_and!; try done. apply elem_of_cons. by left. }
           destruct (decide (p ∈ ps)) as [Hin|Hin].
           ++ rewrite decide_True by done. by rewrite credited_S.
           ++ rewrite decide_False by (by intros (_ & _ & ?)).
              by rewrite times_absent by done.
        -- rewrite (decide_False (P := p = x ∧ payer = payer)) by (by intros [-> _]).
           destruct (decide (payer = payer ∧ p ≠ payer ∧ p ∈ ps)) as [(_ & ? & ?)|Hn].
           ++ rewrite decide_True; [done |].
              split_and!; try done. apply elem_of_cons. by right.
           ++ rewrite decide_False; [done |].
              intros (_ & ? & [->|?]%elem_of_cons); [done |]. by apply Hn.
Qed.

(** One call: the payer is credited the amount and then debited the share
    once for every listing of somebody else, who is debited the share and
    has it added to the ledger entry towards the payer. *)
Lemma add_expense_effect_any self payer amount ps item h :
  wf self h → ps ≠ [] →
  ∃ h', add_expense self payer amount ps item h = (Ok (), h') ∧
        wf self h' ∧
        (∀ q, balance self h' q =
              if decide (q = payer)
              then debited (others payer ps) (share amount ps)
                           (add (balance self h payer) amount)
              else debited (times q ps) (share amount ps) (balance self h q)) ∧
        (∀ p q, owed self h' p q =
                if decide (q = payer ∧ p ≠ payer ∧ p ∈ ps)
                then Some (credited (times p ps) (share amount ps) (owes self h p q))
                else owed self h p q).
Proof.
  intros Hwf Hps.
  destruct (balance_update (λ v, add v amount) self payer h Hwf)
    as (h1 & Hrun1 & Hwf1 & Hbal1 & Hdebts1).
  destruct (split_loop_any self payer (share amount ps) ps h1 Hwf1)
    as (h' & Hrun & Hwf' & Hbal & Howed).
  exists h'. split_and!; [| done | |].
  - rewrite add_expense_unfold.
    rewrite (bind_ok _ _ _ _ _ (truediv_run amount ps h Hps)).
    by rewrite (bind_ok _ _ _ _ _ Hrun1).
  - intros q. rewrite Hbal, Hbal1. by case_decide; subst.
  - intros p q. rewrite Howed. unfold owes.
    by rewrite !(owed_debts _ _ _ Hdebts1).
Qed.

(** One call on a new manager. *)
Lemma single_expense_effect_any payer amount ps item (h0 : heap F) :
  ps ≠ [] →
  ∃ self h,
    single_expense payer amount ps item h0 = (Ok self, h) ∧
    balance self h payer =
      debited (others payer ps) (share amount ps) (add zero amount) ∧
    (∀ p, p ∈ ps → p ≠ payer →
          balance self h p = debited (times p ps) (share amount ps) zero ∧
          owed self h p payer = Some (credited (times p ps) (share amount ps) zero)) ∧
    (NoDup ps → ∀ p, p ∈ ps → p ≠ payer →
          balance self h p = sub zero (share amount ps) ∧
          owed self h p payer = Some (add zero (share amount ps))).
Proof.
  intros Hps. destruct (init_ok h0) as (self & h1 & Hinit & Hwf & Hbal0 & Howed0).
  destruct (add_expense_effect_any self payer amount ps item h1 Hwf Hps)
    as (h & Hrun & _ & Hbal & Howed).
  assert (Hone : ∀ p, p ∈ ps → p ≠ payer →
            balance self h p = debited (times p ps) (share amount ps) zero ∧
            owed self h p payer = Some (credited (times p ps) (share amount ps) zero)).
  { intros p Hp Hne. split.
    - rewrite Hbal, decide_False by done. by rewrite Hbal0.
    - rewrite Howed, decide_True by done. unfold owes. by rewrite Howed0. }
  exists self, h. split_and!; [| | done |].
  - unfold single_expense.
    rewrite (bind_ok _ _ _ _ _ Hinit). by rewrite (bind_ok _ _ _ _ _ Hrun).
  - rewrite Hbal, decide_True by done. by rewrite Hbal0.
  - intros Hnd p Hp Hne. destruct (Hone p Hp Hne) as [-> ->].
    by rewrite (times_NoDup _ _ Hnd Hp).
Qed.

End any_arithmetic.

(** ** Signs *)

Section sign_facts.
Context {F : Type} `{!Number F} `{!Signed F}.
Implicit Types (self : ExpenseManager) (h : heap F) (p q : string).

Lemma credited_not_negative n (s v : F) :
  sign_laws F → lt0 s = false → lt0 v = false → lt0 (credited n s v) = false.
Proof.
  intros (_ & Hadd & _) Hs. revert v. induction n as [|n IH]; intros v Hv; [done |].
  rewrite credited_S. by apply IH, Hadd.
Qed.

(** No valid call brings a negative entry into the ledger. *)
Lemma add_expenses_never_negative self (calls : list (call F)) h :
  sign_laws F →
  wf self h → Forall valid_expense calls →
  (∀ p q v, owed self h p q = Some v → lt0 v = false) →
  ∃ h', add_expenses self calls h = (Ok (), h') ∧
        wf self h' ∧
        (∀ p q v, owed self h' p q = Some v → lt0 v = false).
Proof.
  intros Hlaws Hwf Hvalid. revert h Hwf.
  induction Hvalid as [|c calls [Hamount Hps] _ IH]; intros h Hwf Hpos.
  - by exists h.
  - destruct (add_expense_effect_any self (payer_of c) (amount_of c)
                (participants_of c) (item_of c) h Hwf Hps)
      as (h1 & Hrun1 & Hwf1 & _ & Howed1).
    destruct (IH h1 Hwf1) as (h' & Hrun & Hwf' & Hpos').
    + intros p q v. rewrite Howed1. case_decide as Hc; [|apply Hpos].
      intros [= <-]. apply credited_not_negative; [done | |].
      * destruct Hlaws as (_ & _ & Hshare). by apply Hshare.
      * unfold owes. destruct (owed self h p q) as [v|] eqn:Hv; simpl.
        -- by eapply Hpos.
        -- by destruct Hlaws as (? & _).
    + exists h'. split_and!; try done.
      unfold add_expenses in *. cbn [for_each].
      by rewrite (bind_ok _ _ _ _ _ Hrun1).
Qed.

End sign_facts.

Lemma Qc_sign_laws : sign_laws Qc.
Proof.
  split_and!.
  - done.
  - intros x y Hx%bool_decide_eq_false Hy%bool_decide_eq_false.
    apply bool_decide_eq_false. apply Qcle_not_lt.
    apply Qcnot_lt_le in Hx, Hy.
    replace 0%Qc with (0 + 0)%Qc by ring. by apply Qcplus_le_compat.
  - intros amount n Ha%bool_decide_eq_true.
    apply bool_decide_eq_false, Qcle_not_lt.
    cbn [div of_len Qc_number]. unfold Qcdiv.
    destruct n as [|n].
    + change (Z.of_nat 0) with 0%Z. rewrite Z2Qc_inj_0.
      replace (/ 0)%Qc with 0%Qc by (by apply Qc_is_canon).
      by rewrite Qcmult_0_r.
    + apply Qclt_le_weak, Qcmult_pos_pos; [done |].
      apply Qcinv_pos, (of_len_pos (S n)). lia.
Qed.

(** *** Signs in binary64 *)

Section float_signs.
Import SpecFloat FloatOps.

Lemma ltb_zero_r (x : float) :
  PrimFloat.ltb x 0 = negb (SF_not_negative (Prim2SF x)).
Proof.
  rewrite FloatAxioms.ltb_spec.
  change (Prim2SF 0) with (S754_zero false).
  by destruct (Prim2SF x) as [[]|[]| |[] ? ?].
Qed.

Lemma ltb_zero_l (x : float) :
  PrimFloat.ltb 0 x = SF_positive (Prim2SF x).
Proof.
  rewrite FloatAxioms.ltb_spec.
  change (Prim2SF 0) with (S754_zero false).
  by destruct (Prim2SF x) as [[]|[]| |[] ? ?].
Qed.

(** Rounding keeps the sign it is given. *)
Lemma binary_round_aux_sign prec emax m e l :
  SF_unsigned (binary_round_aux prec emax false m e l) = true.
Proof.
  unfold binary_round_aux.
  destruct (shr_fexp prec emax m e l) as [mrs' e'].
  destruct (shr_fexp _ _ _ _ _) as [mrs'' e''].
  destruct (shr_m mrs''); [done | | done].
  by destruct (_ <=? _)%Z.
Qed.

Lemma binary_round_sign prec emax m e :
  SF_unsigned (binary_round prec emax false m e) = true.
Proof.
  unfold binary_round. destruct (shl_align _ _ _). apply binary_round_aux_sign.
Qed.

Lemma SF_unsigned_not_negative x : SF_unsigned x = true → SF_not_negative x = true.
Proof. by destruct x as [[]|[]| |[] ? ?]. Qed.

Lemma SFadd_not_negative prec emax x y :
  SF_not_negative x = true → SF_not_negative y = true →
  SF_not_negative (SFadd prec emax x y) = true.
Proof.
  destruct x as [[]|[]| |[] mx ex], y as [[]|[]| |[] my ey]; try done.
  intros _ _. unfold SFadd. cbn [cond_Zopp].
  apply SF_unsigned_not_negative.
  change (Z.pos ?a + Z.pos ?b)%Z with (Z.pos (a + b)).
  apply binary_round_sign.
Qed.

Lemma of_uint63_sign (n : int) : SF_unsigned (Prim2SF (of_uint63 n)) = true.
Proof.
  rewrite FloatAxioms.of_uint63_spec. unfold binary_normalize.
  pose proof (to_Z_bounded n) as [Hn _].
  destruct (to_Z n); [done | apply binary_round_sign | lia].
Qed.

Lemma SFdiv_not_negative prec emax x y :
  SF_positive x = true → SF_unsigned y = true →
  SF_not_negative (SFdiv prec emax x y) = true.
Proof.
  destruct x as [[]|[]| |[] mx ex], y as [[]|[]| |[] my ey]; try done.
  intros _ _. unfold SFdiv. cbn [xorb].
  destruct (SFdiv_core_binary _ _ _ _ _ _) as [[mz ez] lz].
  apply SF_unsigned_not_negative, binary_round_aux_sign.
Qed.

Lemma float_sign_laws : sign_laws float.
Proof.
  split_and!; cbn [zero add div of_len gt0 lt0 float_number float_signed].
  - done.
  - intros x y. rewrite !ltb_zero_r, !negb_false_iff, FloatAxioms.add_spec.
    apply SFadd_not_negative.
  - intros amount n. rewrite ltb_zero_l, ltb_zero_r, negb_false_iff.
    rewrite FloatAxioms.div_spec. intros Ha.
    apply SFdiv_not_negative; [done | apply of_uint63_sign].
Qed.

(** [==] holds between a number and itself unless it is NaN. *)
Lemma SFeqb_refl x : x ≠ S754_nan → SFeqb x x = true.
Proof.
  destruct x as [[]|[]| |[] m e]; try done; intros _; unfold SFeqb, SFcompare.
  all: by rewrite Z.compare_refl, Pos.compare_cont_refl.
Qed.

(** [0.0 - s == -s] and [0.0 + s == s] for every [s] other than NaN. *)
Lemma float_sub_zero (s : float) :
  PrimFloat.eqb s s = true → PrimFloat.eqb (0 - s) (- s) = true.
Proof.
  rewrite !FloatAxioms.eqb_spec, FloatAxioms.sub_spec, FloatAxioms.opp_spec.
  change (Prim2SF 0) with (S754_zero false).
  destruct (Prim2SF s) as [[]|[]| |[] m e]; try done; intros _.
  all: by apply SFeqb_refl.
Qed.

Lemma float_add_zero (s : float) :
  PrimFloat.eqb s s = true → PrimFloat.eqb (0 + s) s = true.
Proof.
  rewrite !FloatAxioms.eqb_spec, FloatAxioms.add_spec.
  change (Prim2SF 0) with (S754_zero false).
  destruct (Prim2SF s) as [[]|[]| |[] m e]; try done; intros _.
  all: by apply SFeqb_refl.
Qed.

End float_signs.

(** ** The local table of [display_transactions] *)

Section table_facts.
Context {F : Type} `{!Number F}.
Implicit Types (table : debts_table F) (a b : string) (v x : F).
Implicit Types (entries : list (string * string * F)).

Lemma table_get_put table a b v a' b' :
  table_get (table_put table a b v) a' b' =
  if decide (a' = a ∧ b' = b) then Some v else table_get table a' b'.
Proof.
  unfold table_get, table_put, table_inner. rewrite DictFacts.get_set.
  destruct (decide (a' = a)) as [->|Ha]; simpl.
  - rewrite DictFacts.get_set. destruct (decide (b' = b)) as [->|Hb].
    + by rewrite decide_True.
    + rewrite decide_False by (by intros [_ ?]).
      by destruct (Dict.get table a).
  - by rewrite decide_False by (by intros [? _]).
Qed.

Lemma table_wf_put table a b v : table_wf table → table_wf (table_put table a b v).
Proof.
  intros [Hk Hin]. split.
  - by apply DictFacts.NoDup_keys_set.
  - intros a' d [[-> ->]|Hd]%DictMore.elem_set; [|by eapply Hin].
    apply DictFacts.NoDup_keys_set. unfold table_inner.
    destruct (Dict.get table a) as [d|] eqn:Ha; simpl.
    + eapply Hin. by apply DictFacts.get_Some_elem.
    + apply list.NoDup_nil. done.
Qed.

Lemma table_entry_get table a b : table_entry table a b = default zero (table_get table a b).
Proof.
  unfold table_entry, table_get, table_inner. by destruct (Dict.get table a).
Qed.

Lemma table_iadd_put table a b x :
  table_iadd table a b x = table_put table a b (add (table_entry table a b) x).
Proof. done. Qed.

Lemma table_isub_put table a b x :
  table_isub table a b x = table_put table a b (sub (table_entry table a b) x).
Proof. done. Qed.

Lemma table_wf_debit table a b x : table_wf table → table_wf (debit table a b x).
Proof.
  intros. unfold debit. rewrite table_isub_put, table_iadd_put.
  by do 2 apply table_wf_put.
Qed.

Lemma table_get_debit table p q x a b :
  table_get (debit table p q x) a b =
  if decide (a = q ∧ b = p)
  then Some (sub (table_entry (table_iadd table p q x) q p) x)
  else if decide (a = p ∧ b = q) then Some (add (table_entry table p q) x)
  else table_get table a b.
Proof.
  unfold debit. rewrite table_isub_put, table_get_put. case_decide; [done |].
  by rewrite table_iadd_put, table_get_put.
Qed.

Lemma table_wf_debit_all entries table : table_wf table → table_wf (debit_all entries table).
Proof.
  revert table. induction entries as [|[[p q] x] entries IH]; intros table Hwf; [done |].
  apply IH. by apply table_wf_debit.
Qed.

Lemma debit_all_is_Some entries table a b :
  is_Some (table_get table a b) ∨ (∃ x, (a, b, x) ∈ entries ∨ (b, a, x) ∈ entries) →
  is_Some (table_get (debit_all entries table) a b).
Proof.
  revert table. induction entries as [|[[p q] x] entries IH]; intros table.
  - intros [?|(x & [[]%elem_of_nil|[]%elem_of_nil])]. done.
  - intros H. apply IH.
    destruct (decide (a = q ∧ b = p)) as [[-> ->]|Hqp].
    { left. rewrite table_get_debit, decide_True by done. by eexists. }
    destruct (decide (a = p ∧ b = q)) as [[-> ->]|Hpq].
    { left. rewrite table_get_debit, decide_False, decide_True by done. by eexists. }
    destruct H as [H|(y & [H|H])].
    + left. by rewrite table_get_debit, !decide_False by done.
    + apply elem_of_cons in H as [[= -> -> ->]|H]; [by destruct Hpq |].
      right. exists y. by left.
    + apply elem_of_cons in H as [[= -> -> ->]|H]; [by destruct Hqp |].
      right. exists y. by right.
Qed.

(** Which lines the printing loops emit. *)
Lemma elem_detailed_pass table a b v :
  table_wf table →
  Detailed a b v ∈ detailed_pass table ↔ table_get table a b = Some v ∧ gt0 v = true.
Proof.
  intros [Hk Hin]. unfold detailed_pass, table_get. rewrite list_elem_of_bind. split.
  - intros ([a' d] & Hl & Ha). simpl in Hl.
    apply list_elem_of_bind in Hl as ([b' v'] & Hl & Hd).
    destruct (gt0 v') eqn:Hv; [|by apply elem_of_nil in Hl].
    apply list_elem_of_singleton in Hl. injection Hl as -> -> ->.
    rewrite (DictFacts.elem_get _ _ _ Hk Ha). simpl.
    by rewrite (DictFacts.elem_get _ _ _ (Hin _ _ Ha) Hd).
  - intros [Hg Hv]. destruct (Dict.get table a) as [d|] eqn:Ha; simpl in Hg; [|done].
    exists (a, d). split; [|by apply DictFacts.get_Some_elem].
    apply list_elem_of_bind. exists (b, v). split; [|by apply DictFacts.get_Some_elem].
    rewrite Hv. by apply list_elem_of_singleton.
Qed.

Lemma elem_summary_pass table a b v :
  table_wf table →
  Summary a b v ∈ summary_pass table ↔ table_get table a b = Some v ∧ gt0 v = true.
Proof.
  intros [Hk Hin]. unfold summary_pass, table_get. rewrite list_elem_of_bind. split.
  - intros ([a' d] & Hl & Ha). simpl in Hl.
    apply list_elem_of_bind in Hl as ([b' v'] & Hl & Hd).
    destruct (gt0 v') eqn:Hv; [|by apply elem_of_nil in Hl].
    apply list_elem_of_singleton in Hl. injection Hl as -> -> ->.
    rewrite (DictFacts.elem_get _ _ _ Hk Ha). simpl.
    by rewrite (DictFacts.elem_get _ _ _ (Hin _ _ Ha) Hd).
  - intros [Hg Hv]. destruct (Dict.get table a) as [d|] eqn:Ha; simpl in Hg; [|done].
    exists (a, d). split; [|by apply DictFacts.get_Some_elem].
    apply list_elem_of_bind. exists (b, v). split; [|by apply DictFacts.get_Some_elem].
    rewrite Hv. by apply list_elem_of_singleton.
Qed.

Lemma detailed_pass_lines table l :
  l ∈ detailed_pass table → ∃ a b v, l = Detailed a b v.
Proof.
  unfold detailed_pass. intros ([a d] & Hl & _)%list_elem_of_bind. simpl in Hl.
  apply list_elem_of_bind in Hl as ([b v] & Hl & _).
  destruct (gt0 v); [|by apply elem_of_nil in Hl].
  apply list_elem_of_singleton in Hl. by exists a, b, v.
Qed.

Lemma summary_pass_lines table l :
  l ∈ summary_pass table → ∃ a b v, l = Summary a b v.
Proof.
  unfold summary_pass. intros ([a d] & Hl & _)%list_elem_of_bind. simpl in Hl.
  apply list_elem_of_bind in Hl as ([b v] & Hl & _).
  destruct (gt0 v); [|by apply elem_of_nil in Hl].
  apply list_elem_of_singleton in Hl. by exists a, b, v.
Qed.

(** Membership in the whole output of [display_transactions]. *)
Lemma elem_output_detailed table a b v (s1 s2 : string) :
  Detailed a b v ∈ Heading s1 :: detailed_pass table ++ Heading s2 :: summary_pass table ↔
  Detailed a b v ∈ detailed_pass table.
Proof.
  rewrite elem_of_cons, elem_of_app, elem_of_cons. split; [|auto].
  intros [?|[?|[?|(? & ? & ? & ?)%summary_pass_lines]]]; done.
Qed.

Lemma elem_output_summary table a b v (s1 s2 : string) :
  Summary a b v ∈ Heading s1 :: detailed_pass table ++ Heading s2 :: summary_pass table ↔
  Summary a b v ∈ summary_pass table.
Proof.
  rewrite elem_of_cons, elem_of_app, elem_of_cons. split; [|auto].
  intros [?|[(? & ? & ? & ?)%detailed_pass_lines|[?|?]]]; done.
Qed.

Lemma triples_passes table :
  detailed_triples (detailed_pass table) = summary_triples (summary_pass table) ∧
  detailed_triples (summary_pass table) = [] ∧
  summary_triples (detailed_pass table) = [].
Proof.
  unfold detailed_triples, summary_triples, detailed_pass, summary_pass.
  induction table as [|[a d] table (IH1 & IH2 & IH3)]; [done |].
  rewrite !bind_cons, !bind_app, IH1, IH2, IH3.
  assert (((d ≫= λ '(payer, amount),
              if gt0 amount then [Detailed a payer amount] else []) ≫=
           λ l, match l with Detailed a b v => [(a, b, v)] | _ => [] end) =
          ((d ≫= λ '(payer, total_amount),
              if gt0 total_amount then [Summary a payer total_amount] else []) ≫=
           λ l, match l with Summary a b v => [(a, b, v)] | _ => [] end) ∧
          ((d ≫= λ '(payer, total_amount),
              if gt0 total_amount then [Summary a payer total_amount] else []) ≫=
           λ l : line F, match l with Detailed a b v => [(a, b, v)] | _ => [] end) = [] ∧
          ((d ≫= λ '(payer, amount),
              if gt0 amount then [Detailed a payer amount] else []) ≫=
           λ l : line F, match l with Summary a b v => [(a, b, v)] | _ => [] end) = [])
    as (-> & -> & ->); [|done].
  induction d as [|[b v] d (IHd1 & IHd2 & IHd3)]; [done |].
  rewrite !bind_cons, !bind_app, IHd1, IHd2, IHd3. by destruct (gt0 v).
Qed.

End table_facts.

(** ** Reading the ledger in [display_transactions] *)

Section aggregate_facts.
Context {F : Type} `{!Number F}.
Implicit Types (self : ExpenseManager) (h : heap F) (p q : string).

Lemma resolve_list (fd : list (Dict.t F)) (t : Dict.t loc) :
  (∀ l, l ∈ Dict.values t → ∃ d, fd !! l = Some d ∧ NoDup (Dict.keys d)) →
  ∃ L, mapM (λ '(p, l), d ← fd !! l; Some (p, d)) t = Some L ∧
       Dict.keys L = Dict.keys t ∧
       (∀ p d, (p, d) ∈ L → NoDup (Dict.keys d)) ∧
       (∀ p, Dict.get L p = l ← Dict.get t p; fd !! l).
Proof.
  unfold Dict.keys, Dict.values.
  induction t as [|[p l] t IH]; intros Hin.
  - exists []. split_and!; try done. by intros p d ?%elem_of_nil.
  - destruct (Hin l) as (d & Hd & Hdk); [apply elem_of_cons; by left |].
    destruct IH as (L & HL & Hkeys & Hinner & Hget).
    { intros l' Hl'. apply Hin. apply elem_of_cons. by right. }
    exists ((p, d) :: L). split_and!.
    + simpl. rewrite Hd. simpl. by rewrite HL.
    + csimpl. by rewrite Hkeys.
    + intros p' d' [[= -> ->]|?]%elem_of_cons; [done | by eapply Hinner].
    + intros p'. simpl. destruct (String.eqb_spec p p'); [done | apply Hget].
Qed.

Lemma wf_resolved self h :
  wf self h →
  ∃ L, transactions_of self h = Some L ∧
       NoDup (Dict.keys L) ∧
       (∀ p d, (p, d) ∈ L → NoDup (Dict.keys d)) ∧
       (∀ p, debts_of self h p = Dict.get L p).
Proof.
  intros [_ (t & Ht & Hk & Hv & Hin)].
  destruct (resolve_list (floatdicts h) t) as (L & HL & Hkeys & Hinner & Hget).
  { intros l Hl. by destruct (Hin l Hl) as [_ ?]. }
  exists L. split_and!; try done.
  - unfold transactions_of. by rewrite Ht.
  - by rewrite Hkeys.
  - intros p. unfold debts_of. rewrite Ht. simpl. by rewrite Hget.
Qed.

Lemma debit_all_app (E1 E2 : list (string * string * F)) table :
  debit_all (E1 ++ E2) table = debit_all E2 (debit_all E1 table).
Proof. apply fold_left_app. Qed.

Lemma debit_all_row p (d : Dict.t F) table :
  debit_all ((λ '(payer, amount), (p, payer, amount)) <$> d) table =
  fold_left (λ total_debts '(payer, amount), debit total_debts p payer amount) d table.
Proof.
  revert table. induction d as [|[q x] d IH]; intros table; [done |]. apply IH.
Qed.

Lemma for_fold_resolved (t : Dict.t loc) L acc h :
  mapM (λ '(p, l), d ← floatdicts h !! l; Some (p, d)) t = Some L →
  for_fold t acc (λ total_debts '(person, debts_ref),
    debts ← read_floatdict debts_ref;
    mret (fold_left (λ total_debts '(payer, amount),
            debit total_debts person payer amount)
          debts total_debts)) h =
  (Ok (debit_all (ledger_entries L) acc), h).
Proof.
  revert L acc. induction t as [|[p l] t IH]; intros L acc.
  - by intros [= <-].
  - simpl. destruct (floatdicts h !! l) as [d|] eqn:Hd; simpl; [|done].
    destruct (mapM _ t) as [L'|] eqn:HL'; simpl; [|done]. intros [= <-].
    unfold mbind at 1, M_bind at 1. unfold mbind at 1, M_bind at 1.
    unfold read_floatdict at 1. rewrite Hd.
    unfold mret at 1, M_ret at 1. rewrite (IH L' _ eq_refl).
    unfold ledger_entries. rewrite bind_cons. fold (ledger_entries L').
    by rewrite debit_all_app, debit_all_row.
Qed.

Lemma aggregate_run self h L :
  transactions_of self h = Some L →
  aggregate self h = (Ok (debit_all (ledger_entries L) []), h).
Proof.
  unfold transactions_of, aggregate.
  destruct (nesteddicts h !! transactions self) as [t|] eqn:Ht; simpl; [|done].
  intros HL. unfold mbind, M_bind, read_nesteddict. rewrite Ht.
  by apply for_fold_resolved.
Qed.

Lemma display_transactions_run self h total :
  aggregate self h = (Ok total, h) →
  display_transactions self h =
  (Ok (Heading "Detailed Transactions:" :: detailed_pass total ++
       Heading "Summary of Total Amounts Owed:" :: summary_pass total), h).
Proof. intros H. unfold display_transactions. by rewrite (bind_ok _ _ _ _ _ H). Qed.

Lemma owed_entry self h L p q x :
  (∀ p, debts_of self h p = Dict.get L p) →
  owed self h p q = Some x → (p, q, x) ∈ ledger_entries L.
Proof.
  intros Hget. unfold owed. rewrite Hget.
  destruct (Dict.get L p) as [d|] eqn:Hp; simpl; [|done]. intros Hq.
  apply list_elem_of_bind. exists (p, d). split; [|by apply DictFacts.get_Some_elem].
  apply list_elem_of_fmap. exists (q, x). split; [done |].
  by apply DictFacts.get_Some_elem.
Qed.

End aggregate_facts.

(** ** The net table in exact arithmetic *)

Section net_facts.
Local Open Scope Qc_scope.
Implicit Types (self : ExpenseManager) (h : heap Qc) (p q a b : string).
Implicit Types (entries : list (string * string * Qc)) (table : debts_table Qc).

Lemma flow_app entries1 entries2 a b :
  flow (entries1 ++ entries2) a b = flow entries1 a b + flow entries2 a b.
Proof.
  induction entries1 as [|[[p q] x] entries1 IH]; simpl.
  - ring.
  - rewrite IH. destruct (_ && _); ring.
Qed.

Lemma flow_row p (d : Dict.t Qc) a b :
  NoDup (Dict.keys d) →
  flow ((λ '(payer, amount), (p, payer, amount)) <$> d) a b =
  if decide (p = a) then default 0 (Dict.get d b) else 0.
Proof.
  unfold Dict.keys. induction d as [|[q x] d IH]; csimpl.
  - intros _. by case_decide.
  - rewrite list.NoDup_cons. intros [Hq Hd]. rewrite (IH Hd).
    destruct (decide (p = a)) as [->|Hp].
    + rewrite String.eqb_refl. simpl.
      destruct (String.eqb_spec q b) as [->|Hqb]; [|done].
      apply DictFacts.get_None in Hq. rewrite Hq. simpl. ring.
    + apply String.eqb_neq in Hp. by rewrite Hp.
Qed.

Lemma flow_ledger (L : Dict.t (Dict.t Qc)) a b :
  NoDup (Dict.keys L) → (∀ p d, (p, d) ∈ L → NoDup (Dict.keys d)) →
  flow (ledger_entries L) a b = default 0 (d ← Dict.get L a; Dict.get d b).
Proof.
  unfold Dict.keys at 1. induction L as [|[p d] L IH]; [done |].
  rewrite fmap_cons, list.NoDup_cons. intros [Hp HL] Hinner.
  unfold ledger_entries. rewrite bind_cons. fold (ledger_entries L).
  cbn [Dict.get fst]. rewrite flow_app, flow_row, IH; try done.
  - simpl in Hp. destruct (decide (p = a)) as [->|Hpa].
    + rewrite String.eqb_refl. apply DictFacts.get_None in Hp.
      rewrite Hp. simpl. ring.
    + apply String.eqb_neq in Hpa. rewrite Hpa. ring.
  - intros p' d' ?. apply (Hinner p' d'). apply elem_of_cons. by right.
  - apply (Hinner p d). apply elem_of_cons. by left.
Qed.

Lemma flow_cons p q x entries a b :
  flow ((p, q, x) :: entries) a b =
  (if decide (a = p ∧ b = q) then x else 0) + flow entries a b.
Proof.
  simpl. destruct (String.eqb_spec p a) as [->|Hp], (String.eqb_spec q b) as [->|Hq];
    simpl; case_decide as Hd; try ring; try (by destruct Hd); by destruct Hd.
Qed.

Lemma table_entry_debit table p q x a b :
  table_entry (debit table p q x) a b =
  table_entry table a b
  + (if decide (a = p ∧ b = q) then x else 0)
  - (if decide (b = p ∧ a = q) then x else 0).
Proof.
  rewrite (table_entry_get (debit table p q x)), table_get_debit.
  rewrite (table_entry_get (table_iadd table p q x)), table_iadd_put, table_get_put.
  rewrite !table_entry_get. cbn [add sub zero Qc_number].
  destruct (decide (a = q ∧ b = p)) as [[-> ->]|Hqp].
  - rewrite (decide_True (P := p = p ∧ q = q)) by done.
    destruct (decide (q = p ∧ p = q)) as [[-> _]|Hpq]; simpl; ring.
  - rewrite (decide_False (P := b = p ∧ a = q)) by (intros [-> ->]; by apply Hqp).
    destruct (decide (a = p ∧ b = q)) as [[-> ->]|Hpq]; simpl; ring.
Qed.

Lemma table_entry_debit_all entries table a b :
  table_entry (debit_all entries table) a b =
  table_entry table a b + flow entries a b - flow entries b a.
Proof.
  revert table. induction entries as [|[[p q] x] entries IH]; intros table.
  - simpl. ring.
  - change (debit_all ((p, q, x) :: entries) table)
      with (debit_all entries (debit table p q x)).
    rewrite IH, table_entry_debit, !flow_cons. ring.
Qed.

(** What [display_transactions] computes and prints on a sound manager. *)
Lemma display_spec self h :
  wf self h →
  ∃ total,
    aggregate self h = (Ok total, h) ∧
    display_transactions self h =
      (Ok (Heading "Detailed Transactions:" :: detailed_pass total ++
           Heading "Summary of Total Amounts Owed:" :: summary_pass total), h) ∧
    table_wf total ∧
    (∀ a b, table_entry total a b = owes self h a b - owes self h b a) ∧
    (∀ a b, is_Some (owed self h a b) ∨ is_Some (owed self h b a) →
            is_Some (table_get total a b)).
Proof.
  intros Hwf. destruct (wf_resolved self h Hwf) as (L & HL & Hk & Hinner & Hget).
  pose proof (aggregate_run self h L HL) as Hrun.
  eexists. split_and!; [done | by apply display_transactions_run | | |].
  - apply table_wf_debit_all. split; [apply list.NoDup_nil; done |].
    by intros a d ?%elem_of_nil.
  - intros a b. rewrite table_entry_debit_all, !flow_ledger by done.
    unfold owes, owed. rewrite !Hget. unfold table_entry. simpl. ring.
  - intros a b Hab. apply debit_all_is_Some. right.
    destruct Hab as [[x Hx]|[x Hx]]; exists x;
      [left | right]; by eapply owed_entry.
Qed.

End net_facts.

(** * The properties of the specification *)

Section generic_claims.
Context {F : Type} `{!Number F}.
Implicit Types (self : ExpenseManager) (h : heap F).

(** C3: called with an empty participants list, [add_expense] raises
    ZeroDivisionError before it has written anything: the heap after the
    failed call, and with it both dictionaries, is the heap before it. *)
Theorem add_expense_empty_participants self payer (amount : F) item h :
  add_expense self payer amount [] item h = (Raise ZeroDivisionError, h).
Proof. done. Qed.

(** C6: the [item] argument does not influence [add_expense]: two calls
    that differ only in it return the same result and the same heap. *)
Theorem add_expense_item_irrelevant self payer (amount : F) participants
    (item1 item2 : option string) h :
  add_expense self payer amount participants item1 h =
  add_expense self payer amount participants item2 h.
Proof. by rewrite !add_expense_unfold. Qed.

(** C5: on a sound manager [display_transactions] returns, leaves the heap
    alone, and prints both passes from the one table [total_debts]; the
    triples of the "Detailed" lines are those of the "Summary" lines, in
    the same order. *)
Theorem display_transactions_passes_agree self h :
  wf self h →
  ∃ total out,
    aggregate self h = (Ok total, h) ∧
    display_transactions self h = (Ok out, h) ∧
    detailed_triples out = detailed_triples (detailed_pass total) ∧
    summary_triples out = summary_triples (summary_pass total) ∧
    detailed_triples out = summary_triples out.
Proof.
  intros Hwf. destruct (wf_resolved self h Hwf) as (L & HL & _).
  pose proof (aggregate_run self h L HL) as Hrun.
  eexists _, _. split_and!; [done | by apply display_transactions_run | | |].
  all: destruct (triples_passes (debit_all (ledger_entries L) [])) as (H1 & H2 & H3).
  all: unfold detailed_triples, summary_triples in *.
  all: rewrite !bind_cons, !bind_app, !bind_cons; simpl.
  all: by rewrite ?H1, ?H2, ?H3, ?app_nil_r.
Qed.

End generic_claims.

Section exact_claims.
Local Open Scope Qc_scope.
Implicit Types (self : ExpenseManager) (h : heap Qc) (p q payer : string).
Implicit Types (amount : Qc) (ps : list string).

(** C10: when the payer is not among the (non-empty) participants, the
    call leaves the payer's balance as it was; every participant's balance
    goes down, and the participant's ledger entry towards the payer goes up,
    by the share for each time the participant is listed, hence by exactly
    the share when the participants are distinct. *)
Theorem payer_outside_participants self payer amount ps item h :
  wf self h → ps ≠ [] → payer ∉ ps →
  ∃ h', add_expense self payer amount ps item h = (Ok (), h') ∧
        balance self h' payer = balance self h payer ∧
        (∀ p, p ∈ ps →
              balance self h' p =
                balance self h p - of_len (times p ps) * share amount ps ∧
              owes self h' p payer =
                owes self h p payer + of_len (times p ps) * share amount ps) ∧
        (NoDup ps → ∀ p, p ∈ ps →
              balance self h' p = balance self h p - share amount ps ∧
              owes self h' p payer = owes self h p payer + share amount ps).
Proof.
  intros Hwf Hps Hpayer.
  destruct (add_expense_effect self payer amount ps item h Hwf Hps)
    as (h' & Hrun & _ & Hbal & Howed).
  assert (Hone : ∀ p, p ∈ ps →
            balance self h' p =
              balance self h p - of_len (times p ps) * share amount ps ∧
            owes self h' p payer =
              owes self h p payer + of_len (times p ps) * share amount ps).
  { intros p Hp. assert (p ≠ payer) by (by intros ->). split.
    - rewrite Hbal, decide_False by done. ring.
    - unfold owes at 1. by rewrite Howed, decide_True. }
  exists h'. split_and!; [done | | done |].
  - rewrite Hbal, decide_True, (others_absent _ _ Hpayer), share_total by done. ring.
  - intros Hnd p Hp. destruct (Hone p Hp) as [-> ->].
    rewrite (times_NoDup _ _ Hnd Hp), of_len_1. split; ring.
Qed.

(** One call on a new manager. *)
Lemma single_expense_effect payer amount ps item (h0 : heap Qc) :
  ps ≠ [] →
  ∃ self h,
    single_expense payer amount ps item h0 = (Ok self, h) ∧
    balance self h payer = amount - of_len (others payer ps) * share amount ps ∧
    (∀ p, p ∈ ps → p ≠ payer →
          balance self h p = - (of_len (times p ps) * share amount ps) ∧
          owed self h p payer = Some (of_len (times p ps) * share amount ps)) ∧
    (NoDup ps → ∀ p, p ∈ ps → p ≠ payer →
          balance self h p = - share amount ps ∧
          owed self h p payer = Some (share amount ps)).
Proof.
  intros Hps. destruct (init_ok h0) as (self & h1 & Hinit & Hwf & Hbal0 & Howed0).
  destruct (add_expense_effect self payer amount ps item h1 Hwf Hps)
    as (h & Hrun & _ & Hbal & Howed).
  assert (Hone : ∀ p, p ∈ ps → p ≠ payer →
            balance self h p = - (of_len (times p ps) * share amount ps) ∧
            owed self h p payer = Some (of_len (times p ps) * share amount ps)).
  { intros p Hp Hne. split.
    - rewrite Hbal, Hbal0, decide_False by done. cbn [zero Qc_number]. ring.
    - rewrite Howed, decide_True by done. unfold owes. rewrite Howed0. simpl.
      f_equal. ring. }
  exists self, h. split_and!; [| | done |].
  - unfold single_expense.
    rewrite (bind_ok _ _ _ _ _ Hinit). by rewrite (bind_ok _ _ _ _ _ Hrun).
  - rewrite Hbal, Hbal0, decide_True by done. cbn [zero Qc_number]. ring.
  - intros Hnd p Hp Hne. destruct (Hone p Hp Hne) as [-> ->].
    rewrite (times_NoDup _ _ Hnd Hp), of_len_1. split; [ring | f_equal; ring].
Qed.

(** C4: on a sound manager [display_transactions] derives the net table
    entry PairwiseLedger[A][B] - PairwiseLedger[B][A] for every pair recorded
    in the ledger, and prints "A owes B v" exactly when v is that net value
    and it is strictly positive.  When no ledger entry is negative, as after
    valid calls, every printed pair is itself recorded in the ledger. *)
Theorem display_transactions_net_debts self h :
  wf self h →
  ∃ total out,
    aggregate self h = (Ok total, h) ∧
    display_transactions self h = (Ok out, h) ∧
    (∀ a b, is_Some (owed self h a b) →
            table_get total a b = Some (owes self h a b - owes self h b a)) ∧
    (∀ a b v, Detailed a b v ∈ out ↔
              v = owes self h a b - owes self h b a ∧ 0 < v) ∧
    ((∀ a b v, owed self h a b = Some v → 0 ≤ v) →
     ∀ a b v, Detailed a b v ∈ out → is_Some (owed self h a b)).
Proof.
  intros Hwf.
  destruct (display_spec self h Hwf) as (total & Hagg & Hrun & Htwf & Hentry & Hsome).
  assert (Hget : ∀ a b, is_Some (owed self h a b) ∨ is_Some (owed self h b a) →
            table_get total a b = Some (owes self h a b - owes self h b a)).
  { intros a b Hab. destruct (Hsome a b Hab) as [v Hv].
    rewrite Hv. f_equal. by rewrite <- Hentry, table_entry_get, Hv. }
  assert (Hline : ∀ a b v, Detailed a b v ∈
              Heading "Detailed Transactions:" :: detailed_pass total ++
              Heading "Summary of Total Amounts Owed:" :: summary_pass total ↔
            v = owes self h a b - owes self h b a ∧ 0 < v).
  { intros a b v. rewrite elem_output_detailed, elem_detailed_pass by done.
    cbn [gt0 Qc_number]. rewrite bool_decide_eq_true. split.
    - intros [Hv Hpos]. split; [|done].
      by rewrite <- Hentry, table_entry_get, Hv.
    - intros [-> Hpos]. split; [|done]. apply Hget.
      unfold owes in Hpos.
      destruct (owed self h a b); [left; by eexists |].
      destruct (owed self h b a); [right; by eexists |].
      simpl in Hpos. by apply Qclt_not_eq in Hpos. }
  eexists total, _. split_and!; [done | done | | done |].
  - intros a b Hab. apply Hget. by left.
  - intros Hnonneg a b v [-> Hpos]%Hline.
    destruct (owed self h a b) as [x|] eqn:Hab; [by eexists |]. exfalso.
    unfold owes in Hpos. rewrite Hab in Hpos. simpl in Hpos.
    apply (Qclt_not_le _ _ Hpos).
    destruct (owed self h b a) as [y|] eqn:Hba; simpl; [|done].
    apply (Qcplus_le_mono_r _ _ y). ring_simplify. by eapply Hnonneg.
Qed.

(** C7: on a new manager, [a] paying [x] for [a] and [b] followed by [b]
    paying [x] for [b] and [a] leaves both net entries of the pair at
    exactly 0, and [display_transactions] prints no debt line at all. *)
Theorem opposite_expenses_cancel (a b : string) (x : Qc) item1 item2 (h0 : heap Qc) :
  a ≠ b →
  ∃ self h total,
    (self ← __init__;
     add_expense self a x [a; b] item1;;
     add_expense self b x [b; a] item2;;
     mret self) h0 = (Ok self, h) ∧
    aggregate self h = (Ok total, h) ∧
    table_get total a b = Some 0 ∧
    table_get total b a = Some 0 ∧
    display_transactions self h =
      (Ok [Heading "Detailed Transactions:";
           Heading "Summary of Total Amounts Owed:"], h).
Proof.
  intros Hab. destruct (init_ok h0) as (self & h1 & Hinit & Hwf1 & _ & Howed1).
  destruct (add_expense_effect self a x [a; b] item1 h1 Hwf1 ltac:(done))
    as (h2 & Hrun2 & Hwf2 & _ & Howed2).
  destruct (add_expense_effect self b x [b; a] item2 h2 Hwf2 ltac:(done))
    as (h & Hrun & Hwf & _ & Howed).
  destruct (display_spec self h Hwf) as (total & Hagg & Hdisp & Htwf & Hentry & Hsome).
  assert (Hba : owed self h b a = Some (share x [a; b])).
  { rewrite Howed, decide_False by (by intros (? & _)).
    rewrite Howed2, decide_True.
    2: { split_and!; [done.. |]. apply elem_of_cons. right. apply elem_of_cons. by left. }
    unfold owes. rewrite Howed1. cbn [times default].
    rewrite String.eqb_refl, (proj2 (String.eqb_neq a b) Hab).
    f_equal. rewrite !of_len_add, !of_len_1, !of_len_0. cbn [zero Qc_number]. ring. }
  assert (Hab' : owed self h a b = Some (share x [a; b])).
  { rewrite Howed, decide_True.
    2: { split_and!; [done.. |]. apply elem_of_cons. right. apply elem_of_cons. by left. }
    unfold owes. rewrite Howed2, decide_False by (by intros (? & _)).
    rewrite Howed1. cbn [times default].
    rewrite String.eqb_refl, (proj2 (String.eqb_neq b a)) by done.
    f_equal. rewrite !of_len_add, !of_len_1, !of_len_0. cbn [zero Qc_number].
    unfold share. cbn [length]. ring. }
  assert (Hval : ∀ p q, owes self h p q =
            if decide ((p = a ∧ q = b) ∨ (p = b ∧ q = a))
            then share x [a; b] else 0).
  { intros p q. unfold owes.
    destruct (decide ((p = a ∧ q = b) ∨ (p = b ∧ q = a))) as [[[-> ->]|[-> ->]]|Hn].
    - by rewrite Hab'.
    - by rewrite Hba.
    - rewrite Howed, decide_False; [rewrite Howed2, decide_False; [by rewrite Howed1 |] |].
      all: intros (-> & Hp & Hin); apply Hn.
      all: apply elem_of_cons in Hin as [->|Hin]; [done |].
      all: apply elem_of_cons in Hin as [->|Hin]; [|by apply elem_of_nil in Hin].
      all: auto. }
  assert (Hnet : ∀ p q, owes self h p q - owes self h q p = 0).
  { intros p q. rewrite !Hval. repeat case_decide; try ring; exfalso; tauto. }
  assert (Hzero : ∀ p q, is_Some (owed self h p q) →
            table_get total p q = Some 0).
  { intros p q Hpq. destruct (Hsome p q (or_introl Hpq)) as [v Hv].
    rewrite Hv. f_equal. by rewrite <- (Hnet p q), <- Hentry, table_entry_get, Hv. }
  assert (Hnone : ∀ p q v, table_get total p q = Some v → gt0 v = false).
  { intros p q v Hv. cbn [gt0 Qc_number]. apply bool_decide_eq_false.
    assert (v = 0) as ->; [|by intros ?%Qclt_not_eq].
    by rewrite <- (Hnet p q), <- Hentry, table_entry_get, Hv. }
  exists self, h, total. split_and!; [| done | by apply Hzero; eexists.. |].
  - rewrite (bind_ok _ _ _ _ _ Hinit), (bind_ok _ _ _ _ _ Hrun2).
    by rewrite (bind_ok _ _ _ _ _ Hrun).
  - rewrite Hdisp.
    assert (detailed_pass total = []) as ->.
    { apply elem_of_nil_inv. intros l Hl.
      destruct (detailed_pass_lines _ _ Hl) as (p & q & v & ->).
      apply elem_detailed_pass in Hl as [Hv Hpos]; [|done].
      by rewrite (Hnone _ _ _ Hv) in Hpos. }
    assert (summary_pass total = []) as ->; [|done].
    apply elem_of_nil_inv. intros l Hl.
    destruct (summary_pass_lines _ _ Hl) as (p & q & v & ->).
    apply elem_summary_pass in Hl as [Hv Hpos]; [|done].
    by rewrite (Hnone _ _ _ Hv) in Hpos.
Qed.

End exact_claims.

(** ** Snapshots *)

Section snapshot_facts.
Context {F : Type} `{!Number F}.
Implicit Types (self : ExpenseManager) (h : heap F).

(** The manager's state only depends on its two attributes and on the
    inner ledgers. *)
Lemma state_frame self h h' :
  wf self h →
  nesteddicts h' !! transactions self = nesteddicts h !! transactions self →
  (∀ l d, floatdicts h !! l = Some d → floatdicts h' !! l = Some d) →
  state_of self h' = state_of self h.
Proof.
  intros [(b & Hb & _) (t & Ht & _ & _ & Hin)] Hnested Hfloat.
  unfold state_of, balances_of, transactions_of. f_equal.
  - by rewrite Hb, (Hfloat _ _ Hb).
  - rewrite Hnested, Ht. simpl. apply Forall_mapM_ext, list.Forall_forall.
    intros [p l] Hpl. destruct (Hin l) as (_ & d & Hd & _).
    { unfold Dict.values. apply list_elem_of_fmap. by exists (p, l). }
    by rewrite Hd, (Hfloat _ _ Hd).
Qed.

Lemma get_balances_run self h b :
  floatdicts h !! balances self = Some b →
  get_balances self h =
  (Ok (length (floatdicts h)), Heap (floatdicts h ++ [b]) (nesteddicts h)).
Proof.
  intros Hb. unfold get_balances, mbind, M_bind, read_floatdict. by rewrite Hb.
Qed.

Lemma get_transactions_run self h t :
  nesteddicts h !! transactions self = Some t →
  get_transactions self h =
  (Ok (length (nesteddicts h)), Heap (floatdicts h) (nesteddicts h ++ [t])).
Proof.
  intros Ht. unfold get_transactions, mbind, M_bind, read_nesteddict. by rewrite Ht.
Qed.

(** [get_balances] on a sound manager: the result is a new object with the
    items of [balances]; neither the call nor any later change of that
    object changes the manager's state. *)
Lemma get_balances_copy self h :
  wf self h →
  ∃ r h1, get_balances self h = (Ok r, h1) ∧
          wf self h1 ∧
          state_of self h1 = state_of self h ∧
          floatdicts h !! r = None ∧
          floatdicts h1 !! r = balances_of self h ∧
          (∀ l d, floatdicts h !! l = Some d → floatdicts h1 !! l = Some d) ∧
          (∀ d', ∃ h2, write_floatdict r d' h1 = (Ok (), h2) ∧
                       state_of self h2 = state_of self h).
Proof.
  intros Hwf. pose proof Hwf as [(b & Hb & Hbk) (t & Ht & Hk & Hv & Hin)].
  assert (Hext : ∀ l d, floatdicts h !! l = Some d →
            (floatdicts h ++ [b]) !! l = Some d)
    by (intros; by apply lookup_app_l_Some).
  eexists _, _. split; [by apply get_balances_run |]. split_and!.
  - constructor; simpl.
    + exists b. split; [by apply Hext | done].
    + exists t. split_and!; try done. intros l Hl.
      destruct (Hin l Hl) as (Hne & d & Hd & Hdk). split; [done |].
      exists d. split; [by apply Hext | done].
  - by apply state_frame.
  - by apply lookup_ge_None.
  - unfold balances_of. simpl. rewrite Hb. by apply list_lookup_middle.
  - done.
  - intros d'. eexists. split; [done |]. apply state_frame; [done.. |]. simpl.
    intros l d Hd. pose proof (lookup_lt_Some _ _ _ Hd).
    rewrite list_lookup_insert_ne by lia. by apply Hext.
Qed.

(** [get_transactions] on a sound manager: the result is a new outer
    dictionary with the items of [transactions], that is, with the same
    inner ledgers; neither the call nor any later change of the outer
    object changes the manager's state. *)
Lemma get_transactions_copy self h :
  wf self h →
  ∃ r h1, get_transactions self h = (Ok r, h1) ∧
          wf self h1 ∧
          state_of self h1 = state_of self h ∧
          nesteddicts h !! r = None ∧
          nesteddicts h1 !! r = nesteddicts h !! transactions self ∧
          (∀ l t, nesteddicts h !! l = Some t → nesteddicts h1 !! l = Some t) ∧
          (∀ t', ∃ h2, write_nesteddict r t' h1 = (Ok (), h2) ∧
                       state_of self h2 = state_of self h).
Proof.
  intros Hwf. pose proof Hwf as [(b & Hb & Hbk) (t & Ht & Hk & Hv & Hin)].
  assert (Hext : ∀ l t', nesteddicts h !! l = Some t' →
            (nesteddicts h ++ [t]) !! l = Some t')
    by (intros; by apply lookup_app_l_Some).
  eexists _, _. split; [by apply get_transactions_run |]. split_and!.
  - constructor; simpl; [by exists b |].
    exists t. split_and!; try done. by apply Hext.
  - apply state_frame; [done | | done]. simpl. rewrite Ht. by apply Hext.
  - by apply lookup_ge_None.
  - simpl. rewrite Ht. by apply list_lookup_middle.
  - done.
  - intros t'. eexists. split; [done |]. apply state_frame; [done | | done]. simpl.
    pose proof (lookup_lt_Some _ _ _ Ht).
    rewrite list_lookup_insert_ne by lia. rewrite Ht. by apply Hext.
Qed.

End snapshot_facts.

Section snapshot_claims.
Context {F : Type} `{!Number F}.
Implicit Types (self : ExpenseManager) (h : heap F).

(** C8, as the code has it: on a sound manager both getters return a new
    dictionary object holding the items of the attribute and leave the
    manager's state unchanged; a second call right after returns an object
    with the same items; and replacing the contents of a returned object in
    any way leaves the manager's state unchanged.  For [get_transactions]
    the items are the names with the manager's own inner ledgers: the copy
    stops at the outer level. *)
Theorem snapshots_copy_the_outer_dictionary self h :
  wf self h →
  (∃ r h1,
     get_balances self h = (Ok r, h1) ∧
     state_of self h1 = state_of self h ∧
     floatdicts h !! r = None ∧
     floatdicts h1 !! r = balances_of self h ∧
     (∃ r' h2, get_balances self h1 = (Ok r', h2) ∧
               state_of self h2 = state_of self h ∧
               floatdicts h2 !! r' = floatdicts h2 !! r) ∧
     (∀ d', ∃ h2, write_floatdict r d' h1 = (Ok (), h2) ∧
                  state_of self h2 = state_of self h)) ∧
  (∃ r h1,
     get_transactions self h = (Ok r, h1) ∧
     state_of self h1 = state_of self h ∧
     nesteddicts h !! r = None ∧
     nesteddicts h1 !! r = nesteddicts h !! transactions self ∧
     (∃ r' h2, get_transactions self h1 = (Ok r', h2) ∧
               state_of self h2 = state_of self h ∧
               nesteddicts h2 !! r' = nesteddicts h2 !! r) ∧
     (∀ t', ∃ h2, write_nesteddict r t' h1 = (Ok (), h2) ∧
                  state_of self h2 = state_of self h)).
Proof.
  intros Hwf. split.
  - destruct (get_balances_copy self h Hwf)
      as (r & h1 & Hrun & Hwf1 & Hst & Hnew & Hr & _ & Hwrite).
    destruct (get_balances_copy self h1 Hwf1)
      as (r' & h2 & Hrun' & _ & Hst' & _ & Hr' & Hext & _).
    exists r, h1. split_and!; try done.
    exists r', h2. split_and!; [done | by rewrite Hst' |].
    rewrite Hr'. injection Hst as -> _.
    destruct Hwf as [(b & Hb & _) _]. unfold balances_of in *.
    rewrite Hb in Hr. by rewrite (Hext _ _ Hr).
  - destruct (get_transactions_copy self h Hwf)
      as (r & h1 & Hrun & Hwf1 & Hst & Hnew & Hr & Hext1 & Hwrite).
    destruct (get_transactions_copy self h1 Hwf1)
      as (r' & h2 & Hrun' & _ & Hst' & _ & Hr' & Hext & _).
    exists r, h1. split_and!; try done.
    exists r', h2. split_and!; [done | by rewrite Hst' |].
    rewrite Hr'. destruct Hwf as [_ (t & Ht & _)].
    rewrite Ht in Hr. by rewrite (Hext1 _ _ Ht), (Hext _ _ Hr).
Qed.

End snapshot_claims.

(** C8, the part that fails: writing through the dictionary returned by
    [get_transactions] into one of its values changes the manager's own
    ledger.  After [add_expense("A", 100, ["A", "B"])], the statement
    [snapshot["B"]["A"] = 999] turns the manager's entry from 50 into 999. *)
Lemma transactions_snapshot_shares_inner_ledgers :
  ¬ (∀ r h1 p q v h2,
       get_transactions example_manager example_heap_float = (Ok r, h1) →
       snapshot_setitem r p q v h1 = (Ok (), h2) →
       state_of example_manager h2 = state_of example_manager h1).
Proof.
  intros H.
  specialize (H 1 _ "B" "A" 999%float _ eq_refl eq_refl).
  apply (f_equal (λ s,
    match s.2 with
    | Some [(_, [(_, v)])] => PrimFloat.ltb v 100
    | _ => false
    end)) in H.
  vm_compute in H. discriminate.
Qed.

(** ** Runs on a new manager *)

Ltac by_decide := apply (bool_decide_unpack _); vm_compute; exact I.

Lemma example_wf : wf example_manager example_heap.
Proof.
  constructor.
  - eexists. split; [reflexivity |]. unfold Dict.keys. by_decide.
  - eexists. split_and!; [reflexivity | unfold Dict.keys, Dict.values; by_decide.. |].
    intros l ->%list_elem_of_singleton. split; [done |].
    eexists. split; [reflexivity |]. unfold Dict.keys. by_decide.
Qed.

(** C9, as stated, is refuted: no run of valid calls on a new manager ever
    leaves a negative entry in the pairwise ledger, neither in binary64 nor
    in exact arithmetic. *)
Lemma no_negative_ledger_entry :
  (¬ ∃ (calls : list (call float)) self h1 h a b v,
       Forall valid_expense calls ∧
       __init__ empty_heap = (Ok self, h1) ∧
       add_expenses self calls h1 = (Ok (), h) ∧
       owed self h a b = Some v ∧ PrimFloat.ltb v 0 = true) ∧
  (¬ ∃ (calls : list (call Qc)) self h1 h a b v,
       Forall valid_call calls ∧
       __init__ empty_heap = (Ok self, h1) ∧
       add_expenses self calls h1 = (Ok (), h) ∧
       owed self h a b = Some v ∧ (v < 0)%Qc).
Proof.
  split.
  - intros (calls & self & h1 & h & a & b & v & Hvalid & Hinit & Hrun & Hv & Hneg).
    destruct (init_fresh _ _ _ Hinit) as (Hwf & _ & _ & _ & Howed0).
    destruct (add_expenses_never_negative self calls h1 float_sign_laws Hwf Hvalid)
      as (h' & Hrun' & _ & Hpos).
    { intros p q x. by rewrite Howed0. }
    rewrite Hrun in Hrun'. injection Hrun' as <-.
    specialize (Hpos a b v Hv). cbn [lt0 float_signed] in Hpos. congruence.
  - intros (calls & self & h1 & h & a & b & v & Hvalid & Hinit & Hrun & Hv & Hneg).
    destruct (init_fresh _ _ _ Hinit) as (Hwf & _ & _ & _ & Howed0).
    destruct (add_expenses_positive self calls h1 Hwf Hvalid) as (h' & Hrun' & _ & Hpos).
    { intros p q x. by rewrite Howed0. }
    rewrite Hrun in Hrun'. injection Hrun' as <-.
    apply (Qclt_not_le _ _ Hneg), Qclt_le_weak. by eapply Hpos.
Qed.

(** C9, as the code has it: after any run of valid calls on a new manager
    no entry of the pairwise ledger is negative.  In binary64 [v < 0] is
    false of every entry [v]; an entry can be [0.0], as after
    [add_expense("A", 5e-324, ["A", "B"])], whose share underflows.  In
    exact arithmetic every entry is strictly positive. *)
Theorem ledger_entries_never_negative :
  (∀ (calls : list (call float)) (h0 : heap float),
     Forall valid_expense calls →
     ∃ self h1 h,
       __init__ h0 = (Ok self, h1) ∧
       add_expenses self calls h1 = (Ok (), h) ∧
       ∀ a b v, owed self h a b = Some v → PrimFloat.ltb v 0 = false) ∧
  (∃ self h1 h,
     Forall valid_expense [Call "A" 0x1p-1074%float ["A"; "B"] None] ∧
     __init__ empty_heap = (Ok self, h1) ∧
     add_expenses self [Call "A" 0x1p-1074%float ["A"; "B"] None] h1 = (Ok (), h) ∧
     owed self h "B" "A" = Some 0%float) ∧
  (∀ (calls : list (call Qc)) (h0 : heap Qc),
     Forall valid_call calls →
     ∃ self h1 h,
       __init__ h0 = (Ok self, h1) ∧
       add_expenses self calls h1 = (Ok (), h) ∧
       ∀ a b v, owed self h a b = Some v → (0 < v)%Qc).
Proof.
  split_and!.
  - intros calls h0 Hvalid.
    destruct (init_ok h0) as (self & h1 & Hinit & Hwf & _ & Howed0).
    destruct (add_expenses_never_negative self calls h1 float_sign_laws Hwf Hvalid)
      as (h & Hrun & _ & Hpos).
    { intros p q v. by rewrite Howed0. }
    by exists self, h1, h.
  - exists example_manager, (Heap [[]] [[]]),
      (add_expenses example_manager
         [Call "A" 0x1p-1074%float ["A"; "B"] None] (Heap [[]] [[]])).2.
    split_and!; [| by vm_compute..].
    apply Forall_cons; [by split | apply Forall_nil].
  - intros calls h0 Hvalid.
    destruct (init_ok h0) as (self & h1 & Hinit & Hwf & _ & Howed0).
    destruct (add_expenses_positive self calls h1 Hwf Hvalid) as (h & Hrun & _ & Hpos).
    { intros p q v. by rewrite Howed0. }
    by exists self, h1, h.
Qed.

(** C1 fails on the code: the payer is credited the amount and then debited
    a share for every other participant, who is debited the same share
    again.  After the single call [add_expense("A", 100, ["A", "B", "C",
    "D", "E"])] on a new manager the balances are A: 20 and -20 for each of
    the others, and their sum is -60, in binary64 and in exact arithmetic
    alike.  In general a call moves the sum by the amount minus two shares
    for every listed participant other than the payer. *)
Theorem conservation_fails_on_five_way_split :
  (∃ self h,
     single_expense "A" 100%float ["A"; "B"; "C"; "D"; "E"] None empty_heap =
       (Ok self, h) ∧
     balances_of self h =
       Some [("A", 20%float); ("B", (-20)%float); ("C", (-20)%float);
             ("D", (-20)%float); ("E", (-20)%float)] ∧
     total_balance self h = Some (-60)%float) ∧
  (∃ self h,
     single_expense "A" (Qc_of_Z 100) ["A"; "B"; "C"; "D"; "E"] None empty_heap =
       (Ok self, h) ∧
     balance self h "A" = Qc_of_Z 20 ∧
     total_balance self h = Some (Qc_of_Z (-60))) ∧
  (∀ self payer (amount : Qc) ps item (h : heap Qc) t,
     wf self h → ps ≠ [] → total_balance self h = Some t →
     ∃ h', add_expense self payer amount ps item h = (Ok (), h') ∧
           total_balance self h' =
             Some (t + amount -
                   (1 + 1) * of_len (others payer ps) * share amount ps)%Qc).
Proof.
  split_and!.
  - exists example_manager,
      (single_expense "A" 100%float ["A"; "B"; "C"; "D"; "E"] None empty_heap).2.
    split_and!; by vm_compute.
  - exists example_manager,
      (single_expense "A" (Qc_of_Z 100) ["A"; "B"; "C"; "D"; "E"] None empty_heap).2.
    split_and!; [by vm_compute | |].
    + apply Qc_is_canon. by vm_compute.
    + vm_compute. f_equal. by apply Qc_is_canon.
  - intros self payer amount ps item h t Hwf Hps Ht.
    destruct (add_expense_total self payer amount ps item h t Hwf Hps Ht)
      as (h' & Hrun & _ & Ht').
    by exists h'.
Qed.

(** C2, as stated, fails in binary64: the payer's balance is the amount
    after one rounded subtraction of the share for every other participant,
    which need not be the amount minus the rounded product of their number
    and the share.  After [add_expense("A", 3073, ["A", "B", "C", "D", "E"])]
    the balance of A is 614.6000000000003, while 3073 - 4 * 614.6 is
    614.5999999999999. *)
Lemma payer_balance_rounds_in_binary64 :
  ¬ (∀ payer (amount : float) ps item,
       ps ≠ [] →
       ∃ self h,
         single_expense payer amount ps item empty_heap = (Ok self, h) ∧
         PrimFloat.eqb (balance self h payer)
           (amount - of_len (others payer ps) * share amount ps)%float = true).
Proof.
  intros H.
  destruct (H "A" 3073%float ["A"; "B"; "C"; "D"; "E"] None ltac:(done))
    as (self & h & Hrun & Heq).
  vm_compute in Hrun. injection Hrun as <- <-.
  vm_compute in Heq. discriminate.
Qed.

(** C2, as the code has it: one call on a new manager, with
    share = amount / len(participants).  In any arithmetic the payer ends at
    the amount after one subtraction of the share for every listed
    participant other than the payer, ((0.0 + amount) - share) - ... - share;
    such a participant ends at the balance 0.0 - share with the ledger entry
    0.0 + share towards the payer when listed once, and is debited and
    recorded once per listing otherwise.  In binary64 these two compare
    equal to -share and share unless the share is NaN.  In exact arithmetic
    the payer's balance is the amount minus the number of those listings
    times the share.  In binary64,
    [add_expense("A", 100, ["A", "B"])] gives balances {A: 50, B: -50} and
    ledger {B: {A: 50}}, and a split over A to E gives A: 20 and -20 for each
    of the others. *)
Theorem single_expense_on_new_manager :
  (∀ (F : Type) (N : Number F) payer (amount : F) ps item (h0 : heap F),
     ps ≠ [] →
     ∃ self h,
       single_expense payer amount ps item h0 = (Ok self, h) ∧
       balance self h payer =
         debited (others payer ps) (share amount ps) (add zero amount) ∧
       (∀ p, p ∈ ps → p ≠ payer →
             balance self h p = debited (times p ps) (share amount ps) zero ∧
             owed self h p payer =
               Some (credited (times p ps) (share amount ps) zero)) ∧
       (NoDup ps → ∀ p, p ∈ ps → p ≠ payer →
             balance self h p = sub zero (share amount ps) ∧
             owed self h p payer = Some (add zero (share amount ps)))) ∧
  (∀ payer (amount : float) ps item (h0 : heap float),
     ps ≠ [] → NoDup ps →
     PrimFloat.eqb (share amount ps) (share amount ps) = true →
     ∃ self h,
       single_expense payer amount ps item h0 = (Ok self, h) ∧
       ∀ p, p ∈ ps → p ≠ payer →
            PrimFloat.eqb (balance self h p) (- share amount ps)%float = true ∧
            ∃ v, owed self h p payer = Some v ∧
                 PrimFloat.eqb v (share amount ps) = true) ∧
  (∀ payer (amount : Qc) ps item (h0 : heap Qc),
     ps ≠ [] →
     ∃ self h,
       single_expense payer amount ps item h0 = (Ok self, h) ∧
       balance self h payer =
         (amount - of_len (others payer ps) * share amount ps)%Qc ∧
       (∀ p, p ∈ ps → p ≠ payer →
             balance self h p = (- (of_len (times p ps) * share amount ps))%Qc ∧
             owed self h p payer = Some (of_len (times p ps) * share amount ps)%Qc) ∧
       (NoDup ps → ∀ p, p ∈ ps → p ≠ payer →
             balance self h p = (- share amount ps)%Qc ∧
             owed self h p payer = Some (share amount ps))) ∧
  (∃ self h,
     single_expense "A" 100%float ["A"; "B"] None empty_heap = (Ok self, h) ∧
     balances_of self h = Some [("A", 50%float); ("B", (-50)%float)] ∧
     transactions_of self h = Some [("B", [("A", 50%float)])]) ∧
  (∃ self h,
     single_expense "A" 100%float ["A"; "B"; "C"; "D"; "E"] None empty_heap =
       (Ok self, h) ∧
     balances_of self h =
       Some [("A", 20%float); ("B", (-20)%float); ("C", (-20)%float);
             ("D", (-20)%float); ("E", (-20)%float)] ∧
     transactions_of self h =
       Some [("B", [("A", 20%float)]); ("C", [("A", 20%float)]);
             ("D", [("A", 20%float)]); ("E", [("A", 20%float)])]).
Proof.
  split_and!.
  - intros F N. apply single_expense_effect_any.
  - intros payer amount ps item h0 Hps Hnd Hnum.
    destruct (single_expense_effect_any payer amount ps item h0 Hps)
      as (self & h & Hrun & _ & _ & Hdistinct).
    exists self, h. split; [done |]. intros p Hp Hne.
    destruct (Hdistinct Hnd p Hp Hne) as [-> ->]. split.
    + by apply float_sub_zero.
    + eexists. split; [done |]. by apply float_add_zero.
  - apply single_expense_effect.
  - exists example_manager,
      (single_expense "A" 100%float ["A"; "B"] None empty_heap).2.
    split_and!; by vm_compute.
  - exists example_manager,
      (single_expense "A" 100%float ["A"; "B"; "C"; "D"; "E"] None empty_heap).2.
    split_and!; by vm_compute.
Qed.

(** ** Instances *)

Lemma single_expense_on_new_manager_witness :
  ["A"; "B"; "C"; "D"; "E"] ≠ [] ∧
  ∃ self h,
    single_expense "A" 3073%float ["A"; "B"; "C"; "D"; "E"] None empty_heap =
      (Ok self, h) ∧
    balance self h "A" =
      debited (others "A" ["A"; "B"; "C"; "D"; "E"])
              (share 3073%float ["A"; "B"; "C"; "D"; "E"])
              (add zero 3073%float) ∧
    balance self h "B" = sub zero (share 3073%float ["A"; "B"; "C"; "D"; "E"]) ∧
    owed self h "B" "A" =
      Some (add zero (share 3073%float ["A"; "B"; "C"; "D"; "E"])).
Proof.
  assert (Hps : ["A"; "B"; "C"; "D"; "E"] ≠ []) by discriminate.
  split; [exact Hps |].
  destruct (proj1 single_expense_on_new_manager float float_number "A" 3073%float
              ["A"; "B"; "C"; "D"; "E"] None empty_heap Hps)
    as (self & h & Hrun & Hpayer & _ & Hdistinct).
  exists self, h. split; [exact Hrun |]. split; [exact Hpayer |].
  apply Hdistinct; [by_decide | by_decide | discriminate].
Defined.

Lemma display_transactions_passes_agree_witness :
  wf example_manager example_heap ∧
  ∃ out, display_transactions example_manager example_heap = (Ok out, example_heap) ∧
         detailed_triples out = summary_triples out.
Proof.
  split; [exact example_wf |].
  destruct (display_transactions_passes_agree example_manager example_heap example_wf)
    as (total & out & _ & Hrun & _ & _ & Hsame).
  exists out. split; [exact Hrun | exact Hsame].
Defined.

Lemma payer_outside_participants_witness :
  wf example_manager example_heap ∧ ["A"; "B"] ≠ [] ∧ ("C" ∉ ["A"; "B"]) ∧
  ∃ h', add_expense example_manager "C" (Qc_of_Z 30) ["A"; "B"] None example_heap =
          (Ok (), h') ∧
        balance example_manager h' "C" = balance example_manager example_heap "C".
Proof.
  assert (Hps : ["A"; "B"] ≠ []) by discriminate.
  assert (Hout : "C" ∉ ["A"; "B"]) by by_decide.
  split_and!; [exact example_wf | exact Hps | exact Hout |].
  destruct (payer_outside_participants example_manager "C" (Qc_of_Z 30) ["A"; "B"]
              None example_heap example_wf Hps Hout) as (h' & Hrun & Hpayer & _).
  exists h'. split; [exact Hrun | exact Hpayer].
Defined.

Lemma ledger_entries_never_negative_witness :
  Forall valid_expense [Call "A" 0x1p-1074%float ["A"; "B"] None] ∧
  ∃ self h1 h,
    __init__ empty_heap = (Ok self, h1) ∧
    add_expenses self [Call "A" 0x1p-1074%float ["A"; "B"] None] h1 = (Ok (), h) ∧
    ∀ a b v, owed self h a b = Some v → PrimFloat.ltb v 0 = false.
Proof.
  assert (Hvalid : Forall valid_expense [Call "A" 0x1p-1074%float ["A"; "B"] None]).
  { apply Forall_cons; [split; [reflexivity | discriminate] | apply Forall_nil]. }
  split; [exact Hvalid |].
  exact (proj1 ledger_entries_never_negative _ empty_heap Hvalid).
Defined.

Lemma display_transactions_net_debts_witness :
  wf example_manager example_heap ∧
  ∃ out, display_transactions example_manager example_heap = (Ok out, example_heap) ∧
         ∀ a b v, Detailed a b v ∈ out ↔
                  v = (owes example_manager example_heap a b -
                       owes example_manager example_heap b a)%Qc ∧ (0 < v)%Qc.
Proof.
  split; [exact example_wf |].
  destruct (display_transactions_net_debts example_manager example_heap example_wf)
    as (total & out & _ & Hrun & _ & Hlines & _).
  exists out. split; [exact Hrun | exact Hlines].
Defined.

Lemma opposite_expenses_cancel_witness :
  "A" ≠ "B" ∧
  ∃ self h,
    (self ← __init__;
     add_expense self "A" (Qc_of_Z 10) ["A"; "B"] None;;
     add_expense self "B" (Qc_of_Z 10) ["B"; "A"] None;;
     mret self) empty_heap = (Ok self, h) ∧
    display_transactions self h =
      (Ok [Heading "Detailed Transactions:";
           Heading "Summary of Total Amounts Owed:"], h).
Proof.
  assert (Hab : "A" ≠ "B") by discriminate.
  split; [exact Hab |].
  destruct (opposite_expenses_cancel "A" "B" (Qc_of_Z 10) None None empty_heap Hab)
    as (self & h & total & Hrun & _ & _ & _ & Hdisplay).
  exists self, h. split; [exact Hrun | exact Hdisplay].
Defined.

Lemma snapshots_copy_the_outer_dictionary_witness :
  wf example_manager example_heap ∧
  ∃ r h1, get_transactions example_manager example_heap = (Ok r, h1) ∧
          state_of example_manager h1 = state_of example_manager example_heap ∧
          nesteddicts h1 !! r =
            nesteddicts example_heap !! (transactions example_manager).
Proof.
  split; [exact example_wf |].
  destruct (snapshots_copy_the_outer_dictionary example_manager example_heap example_wf)
    as [_ (r & h1 & Hrun & Hstate & _ & Hitems & _)].
  exists r, h1. split_and!; [exact Hrun | exact Hstate | exact Hitems].
Defined.

(** * Further properties of the code *)

(** ** What [add_expense] touches, in any arithmetic *)

Section frame_facts.
Context {F : Type} `{!Number F}.
Implicit Types (self : ExpenseManager) (h : heap F) (p q payer : string).
Implicit Types (ps : list string).

Lemma transactions_of_put_balances self h d :
  wf self h →
  transactions_of self (put_float (balances self) d h) = transactions_of self h.
Proof.
  intros [_ (t & Ht & _ & _ & Hin)]. unfold transactions_of, put_float. simpl.
  rewrite Ht. simpl. apply Forall_mapM_ext, list.Forall_forall.
  intros [p l] Hpl. destruct (Hin l) as (Hne & _).
  { unfold Dict.values. apply list_elem_of_fmap. by exists (p, l). }
  by rewrite list_lookup_insert_ne.
Qed.

Lemma split_loop_frame self payer s ps h :
  wf self h →
  ∃ h', for_each ps (split_step self payer s) h = (Ok (), h') ∧
        wf self h' ∧
        (∀ q, q ≠ payer → q ∉ ps → balance self h' q = balance self h q) ∧
        (∀ p q, ¬ (q = payer ∧ p ≠ payer ∧ p ∈ ps) →
                owed self h' p q = owed self h p q) ∧
        (∀ p, p ≠ payer → p ∈ ps → is_Some (owed self h' p payer)) ∧
        (Forall (λ x, x = payer) ps → h' = h).
Proof.
  revert h. induction ps as [|x ps IH]; intros h Hwf.
  - exists h. split_and!; try done. by intros p _ ?%elem_of_nil.
  - cbn [for_each]. destruct (decide (x = payer)) as [->|Hx].
    + rewrite (bind_ok _ _ _ _ _ (split_step_payer self payer s h)).
      destruct (IH h Hwf) as (h' & Hrun & Hwf' & Hbal & Howed & Hsome & Honly).
      exists h'. split_and!; try done.
      * intros q Hq [_ Hin]%not_elem_of_cons. by apply Hbal.
      * intros p q Hn. apply Howed. intros (? & ? & ?). apply Hn.
        split_and!; try done. apply elem_of_cons. by right.
      * intros p Hp [->|Hin]%elem_of_cons; [done | by apply Hsome].
      * intros Hall. apply Honly. by apply list.Forall_cons in Hall as [_ ?].
    + destruct (split_step_other self payer s x h Hwf Hx)
        as (h1 & Hrun1 & Hwf1 & Hbal1 & Howed1).
      rewrite (bind_ok _ _ _ _ _ Hrun1).
      destruct (IH h1 Hwf1) as (h' & Hrun & Hwf' & Hbal & Howed & Hsome & Honly).
      exists h'. split_and!; try done.
      * intros q Hq [Hqx Hin]%not_elem_of_cons.
        by rewrite Hbal, Hbal1, !decide_False.
      * intros p q Hn. rewrite Howed, Howed1.
        -- rewrite decide_False; [done |]. intros [-> ->]. apply Hn.
           split_and!; try done. apply elem_of_cons. by left.
        -- intros (? & ? & ?). apply Hn.
           split_and!; try done. apply elem_of_cons. by right.
      * intros p Hp [->|Hin]%elem_of_cons; [|by apply Hsome].
        destruct (decide (x ∈ ps)) as [Hin|Hin]; [by apply Hsome |].
        rewrite Howed by (by intros (_ & _ & ?)).
        rewrite Howed1, decide_True by done. by eexists.
      * intros Hall. by apply list.Forall_cons in Hall as [? _].
Qed.

Lemma add_expense_frame self payer (amount : F) ps item h :
  wf self h → ps ≠ [] →
  ∃ h', add_expense self payer amount ps item h = (Ok (), h') ∧
        wf self h' ∧
        (∀ q, q ≠ payer → q ∉ ps → balance self h' q = balance self h q) ∧
        (∀ p q, ¬ (q = payer ∧ p ≠ payer ∧ p ∈ ps) →
                owed self h' p q = owed self h p q) ∧
        (∀ p, p ≠ payer → p ∈ ps → is_Some (owed self h' p payer)) ∧
        (Forall (λ x, x = payer) ps →
         balance self h' payer = add (balance self h payer) amount ∧
         (∀ q, q ≠ payer → balance self h' q = balance self h q) ∧
         transactions_of self h' = transactions_of self h).
Proof.
  intros Hwf Hps.
  destruct (balance_update (λ v, add v amount) self payer h Hwf)
    as (h1 & Hrun1 & Hwf1 & Hbal1 & Hdebts1).
  destruct (split_loop_frame self payer (share amount ps) ps h1 Hwf1)
    as (h' & Hrun & Hwf' & Hbal & Howed & Hsome & Honly).
  exists h'. split_and!; try done.
  - rewrite add_expense_unfold.
    rewrite (bind_ok _ _ _ _ _ (truediv_run amount ps h Hps)).
    by rewrite (bind_ok _ _ _ _ _ Hrun1).
  - intros q Hq Hin. by rewrite Hbal, Hbal1, decide_False.
  - intros p q Hn. by rewrite Howed, (owed_debts _ _ _ Hdebts1).
  - intros Hall. rewrite (Honly Hall). split_and!.
    + by rewrite Hbal1, decide_True.
    + intros q Hq. by rewrite Hbal1, decide_False.
    + pose proof Hwf as [(b & Hb & _) _].
      rewrite (float_update_run _ _ payer h b Hb) in Hrun1. injection Hrun1 as <-.
      by apply transactions_of_put_balances.
Qed.

End frame_facts.

(** ** Who is known to the manager *)

Section known_facts.
Context {F : Type} `{!Number F}.
Implicit Types (self : ExpenseManager) (h : heap F) (p q payer : string).
Implicit Types (ps : list string).

Lemma known_items_update (f : F → F) self h h' b k p :
  balances_of self h = Some b →
  balances_of self h' = Some (items_update f b k) →
  known self h' p ↔ p = k ∨ known self h p.
Proof.
  intros Hb Hb'. unfold known, balances_of in *. rewrite Hb, Hb'. split.
  - intros (? & [= <-] & Hp). unfold items_update in Hp.
    rewrite DictFacts.get_set in Hp. case_decide; [by left |].
    right. by exists b.
  - intros [->|(? & [= <-] & Hp)]; eexists; (split; [done |]);
      unfold items_update; rewrite DictFacts.get_set; case_decide; by eauto.
Qed.

Lemma known_balance_update (f : F → F) self k h h' p :
  wf self h →
  (v ← float_getitem (balances self) k;
   float_setitem (balances self) k (f v)) h = (Ok (), h') →
  known self h' p ↔ p = k ∨ known self h p.
Proof.
  intros [(b & Hb & _) _] Hrun.
  eapply known_items_update; [exact Hb |]. by eapply balance_update_items.
Qed.

Lemma known_split_step self payer s person h h' p :
  wf self h → person ≠ payer →
  split_step self payer s person h = (Ok (), h') →
  known self h' p ↔ p = payer ∨ p = person ∨ known self h p.
Proof.
  intros Hwf Hne Hrun. pose proof Hwf as [(b & Hb & _) _].
  pose proof (split_step_items self payer s person h h' b Hwf Hne Hb Hrun) as Hb'.
  unfold known, balances_of in *. rewrite Hb, Hb'. unfold items_update. split.
  - intros (? & [= <-] & Hp). rewrite DictFacts.get_set in Hp.
    case_decide; [by left |]. rewrite DictFacts.get_set in Hp.
    case_decide; [by right; left |]. right; right. by exists b.
  - intros Hp. eexists. split; [done |]. rewrite !DictFacts.get_set.
    repeat case_decide; try by eauto.
    destruct Hp as [?|[?|(? & [= <-] & ?)]]; done.
Qed.

Lemma known_split_loop self payer s ps h :
  wf self h → known self h payer →
  ∃ h', for_each ps (split_step self payer s) h = (Ok (), h') ∧
        ∀ p, known self h' p ↔ known self h p ∨ p ∈ ps.
Proof.
  revert h. induction ps as [|x ps IH]; intros h Hwf Hpayer.
  - exists h. split; [done |]. intros p. split; [by left |].
    by intros [?|?%elem_of_nil].
  - cbn [for_each]. destruct (decide (x = payer)) as [->|Hx].
    + rewrite (bind_ok _ _ _ _ _ (split_step_payer self payer s h)).
      destruct (IH h Hwf Hpayer) as (h' & Hrun & Hknown).
      exists h'. split; [done |]. intros p. rewrite Hknown, elem_of_cons.
      split; [intros [?|?]; auto |]. intros [?|[->|?]]; auto.
    + destruct (split_step_other self payer s x h Hwf Hx) as (h1 & Hrun1 & Hwf1 & _).
      rewrite (bind_ok _ _ _ _ _ Hrun1).
      pose proof (λ p, known_split_step self payer s x h h1 p Hwf Hx Hrun1) as Hstep.
      destruct (IH h1 Hwf1) as (h' & Hrun & Hknown); [apply Hstep; by left |].
      exists h'. split; [done |]. intros p. rewrite Hknown, Hstep, elem_of_cons.
      split.
      * intros [[->|[->|?]]|?]; auto.
      * intros [?|[->|?]]; auto.
Qed.

End known_facts.

Section frame_claims.
Context {F : Type} `{!Number F}.
Implicit Types (self : ExpenseManager) (h : heap F) (p q payer : string).
Implicit Types (ps : list string).

(** X1: [add_expense] leaves alone everybody it is not about: the balance
    of a person who is neither the payer nor listed, and every ledger
    entry other than those of a listed non-payer towards the payer, are
    after the call what they were before it, in any arithmetic. *)
Theorem add_expense_leaves_others_alone self payer (amount : F) ps item h :
  wf self h → ps ≠ [] →
  ∃ h', add_expense self payer amount ps item h = (Ok (), h') ∧
        (∀ q, q ≠ payer → q ∉ ps → balance self h' q = balance self h q) ∧
        (∀ p q, ¬ (q = payer ∧ p ≠ payer ∧ p ∈ ps) →
                owed self h' p q = owed self h p q).
Proof.
  intros Hwf Hps.
  destruct (add_expense_frame self payer amount ps item h Hwf Hps)
    as (h' & Hrun & _ & Hbal & Howed & _).
  by exists h'.
Qed.

(** X2: an expense whose listed participants are all the payer is a plain
    credit: the payer's balance grows by the whole amount, nobody is
    debited, and the ledger stays as it is, in any arithmetic. *)
Theorem payer_only_expense_is_a_credit self payer (amount : F) ps item h :
  wf self h → ps ≠ [] → Forall (λ x, x = payer) ps →
  ∃ h', add_expense self payer amount ps item h = (Ok (), h') ∧
        balance self h' payer = add (balance self h payer) amount ∧
        (∀ q, q ≠ payer → balance self h' q = balance self h q) ∧
        transactions_of self h' = transactions_of self h.
Proof.
  intros Hwf Hps Hall.
  destruct (add_expense_frame self payer amount ps item h Hwf Hps)
    as (h' & Hrun & _ & _ & _ & _ & Honly).
  exists h'. split; [done |]. by apply Honly.
Qed.

(** X4: the persons known to the manager, [p in self.balances], after a
    call are those known before it, the payer and the listed participants:
    entries are created on first mention and never removed. *)
Theorem add_expense_known_persons self payer (amount : F) ps item h :
  wf self h → ps ≠ [] →
  ∃ h', add_expense self payer amount ps item h = (Ok (), h') ∧
        ∀ p, known self h' p ↔ known self h p ∨ p = payer ∨ p ∈ ps.
Proof.
  intros Hwf Hps.
  destruct (balance_update (λ v, add v amount) self payer h Hwf)
    as (h1 & Hrun1 & Hwf1 & _).
  pose proof (λ p, known_balance_update _ self payer h h1 p Hwf Hrun1) as Hfirst.
  destruct (known_split_loop self payer (share amount ps) ps h1 Hwf1)
    as (h' & Hrun & Hknown); [apply Hfirst; by left |].
  exists h'. split.
  - rewrite add_expense_unfold.
    rewrite (bind_ok _ _ _ _ _ (truediv_run amount ps h Hps)).
    by rewrite (bind_ok _ _ _ _ _ Hrun1).
  - intros p. rewrite Hknown, Hfirst. split.
    + intros [[->|?]|?]; auto.
    + intros [?|[->|?]]; auto.
Qed.

End frame_claims.

(** ** Invariants of a run of calls *)

Section run_facts.
Context {F : Type} `{!Number F}.
Implicit Types (self : ExpenseManager) (h : heap F) (p q payer : string).
Implicit Types (ps : list string) (calls : list (call F)).

Lemma bind_raise' {A B} (m : M F A) (f : A → M F B) h e h' :
  m h = (Raise e, h') → (m ≫= f) h = (Raise e, h').
Proof. unfold mbind, M_bind. by intros ->. Qed.

Lemma add_expense_empty_run self payer (amount : F) item h :
  add_expense self payer amount [] item h = (Raise ZeroDivisionError, h).
Proof. done. Qed.

Lemma add_expenses_nil self h : add_expenses self [] h = (Ok (), h).
Proof. done. Qed.

Lemma add_expenses_cons_empty self c calls h :
  participants_of c = [] →
  add_expenses self (c :: calls) h = (Raise ZeroDivisionError, h).
Proof.
  intros Hc. unfold add_expenses. cbn [for_each].
  apply bind_raise'. rewrite Hc. apply add_expense_empty_run.
Qed.

Lemma add_expenses_cons_ok self c calls h h1 :
  add_expense self (payer_of c) (amount_of c) (participants_of c) (item_of c) h =
    (Ok (), h1) →
  add_expenses self (c :: calls) h = add_expenses self calls h1.
Proof. intros Hc. unfold add_expenses. cbn [for_each]. by rewrite (bind_ok _ _ _ _ _ Hc). Qed.

(** A property of heaps that every successful call keeps holds after every
    run, whether the run completes or stops at a call that raises. *)
Lemma add_expenses_invariant (I : heap F → Prop) self calls h r h' :
  (∀ c h1 h2, wf self h1 → I h1 → participants_of c ≠ [] →
     add_expense self (payer_of c) (amount_of c) (participants_of c) (item_of c) h1 =
       (Ok (), h2) → I h2) →
  wf self h → I h →
  add_expenses self calls h = (r, h') →
  wf self h' ∧ I h'.
Proof.
  intros Hstep. revert h. induction calls as [|c calls IH]; intros h Hwf HI.
  - rewrite add_expenses_nil. by intros [= _ <-].
  - destruct (decide (participants_of c = [])) as [Hc|Hc].
    + rewrite add_expenses_cons_empty by done. by intros [= _ <-].
    + destruct (add_expense_wf self (payer_of c) (amount_of c) (participants_of c)
                  (item_of c) h Hwf Hc) as (h1 & Hrun1 & Hwf1).
      rewrite (add_expenses_cons_ok _ _ _ _ _ Hrun1).
      apply IH; [done |]. by apply (Hstep c h h1).
Qed.

Lemma known_mono self payer (amount : F) ps item h h' p :
  wf self h → ps ≠ [] →
  add_expense self payer amount ps item h = (Ok (), h') →
  (known self h' p ↔ known self h p ∨ p = payer ∨ p ∈ ps).
Proof.
  intros Hwf Hps Hrun.
  destruct (balance_update (λ v, add v amount) self payer h Hwf)
    as (h1 & Hrun1 & Hwf1 & _).
  pose proof (λ p, known_balance_update _ self payer h h1 p Hwf Hrun1) as Hfirst.
  destruct (known_split_loop self payer (share amount ps) ps h1 Hwf1)
    as (h2 & Hrun2 & Hknown); [apply Hfirst; by left |].
  rewrite add_expense_unfold in Hrun.
  rewrite (bind_ok _ _ _ _ _ (truediv_run amount ps h Hps)) in Hrun.
  rewrite (bind_ok _ _ _ _ _ Hrun1), Hrun2 in Hrun. injection Hrun as <-.
  rewrite Hknown, Hfirst. split.
  - intros [[->|?]|?]; auto.
  - intros [?|[->|?]]; auto.
Qed.

End run_facts.

Section run_claims.
Context {F : Type} `{!Number F}.
Implicit Types (self : ExpenseManager) (h : heap F) (p q : string).

(** X3: after any run of calls on a new manager, also one that stops at a
    call that raises, nobody owes themselves, and every entry of the ledger
    is between persons that have a balance. *)
Theorem ledger_is_between_known_persons (calls : list (call F)) (h0 : heap F)
    self h1 r h :
  __init__ h0 = (Ok self, h1) →
  add_expenses self calls h1 = (r, h) →
  (∀ p, owed self h p p = None) ∧
  (∀ p q, is_Some (owed self h p q) → known self h p ∧ known self h q).
Proof.
  intros Hinit Hrun.
  destruct (init_fresh h0 self h1 Hinit) as (Hwf1 & _ & _ & _ & Howed1).
  eapply (add_expenses_invariant
            (λ h, (∀ p, owed self h p p = None) ∧
                  (∀ p q, is_Some (owed self h p q) →
                          known self h p ∧ known self h q)));
    [| exact Hwf1 | | exact Hrun].
  - intros c ha hb Hwfa [Hself Hknown] Hc Hcall.
    destruct (add_expense_frame self (payer_of c) (amount_of c) (participants_of c)
                (item_of c) ha Hwfa Hc) as (hb' & Hcall' & _ & _ & Howed & _).
    rewrite Hcall in Hcall'. injection Hcall' as <-.
    pose proof (λ p, known_mono self _ _ _ _ ha hb p Hwfa Hc Hcall) as Hmono.
    split.
    + intros p. rewrite Howed; [apply Hself |]. by intros (-> & ? & _).
    + intros p q Hpq.
      destruct (decide (q = payer_of c ∧ p ≠ payer_of c ∧ p ∈ participants_of c))
        as [(-> & _ & Hin)|Hn].
      * split; apply Hmono; auto.
      * rewrite Howed in Hpq by done. destruct (Hknown p q Hpq).
        split; apply Hmono; auto.
  - split; [done |]. intros p q. rewrite Howed1. by intros [? ?].
Qed.

(** X12: after any run of calls on a new manager, also one that stops at a
    call that raises, the manager is sound: both attributes refer to
    dictionaries, every dictionary has each key once, and every person's
    inner ledger is an object of its own, shared neither with another
    person nor with the balances. *)
Theorem runs_keep_the_manager_sound (calls : list (call F)) (h0 : heap F)
    self h1 r h :
  __init__ h0 = (Ok self, h1) →
  add_expenses self calls h1 = (r, h) →
  wf self h.
Proof.
  intros Hinit Hrun.
  destruct (init_fresh h0 self h1 Hinit) as (Hwf1 & _).
  by destruct (add_expenses_invariant (λ _, True) self calls h1 r h).
Qed.

End run_claims.

(** ** How calls compose, in exact arithmetic *)

Section compose_facts.
Local Open Scope Qc_scope.
Implicit Types (self : ExpenseManager) (h : heap Qc) (p q payer : string).
Implicit Types (amount : Qc) (ps : list string).

Lemma two_calls_effect self payer1 amount1 ps1 item1 payer2 amount2 ps2 item2 h :
  wf self h → ps1 ≠ [] → ps2 ≠ [] →
  ∃ h', (add_expense self payer1 amount1 ps1 item1;;
         add_expense self payer2 amount2 ps2 item2) h = (Ok (), h') ∧
        wf self h' ∧
        (∀ q, balance self h' q =
              balance self h q +
              (if decide (q = payer1)
               then amount1 - of_len (others payer1 ps1) * share amount1 ps1
               else - (of_len (times q ps1) * share amount1 ps1)) +
              (if decide (q = payer2)
               then amount2 - of_len (others payer2 ps2) * share amount2 ps2
               else - (of_len (times q ps2) * share amount2 ps2))) ∧
        (∀ p q, owed self h' p q =
                if decide ((q = payer1 ∧ p ≠ payer1 ∧ p ∈ ps1) ∨
                           (q = payer2 ∧ p ≠ payer2 ∧ p ∈ ps2))
                then Some (owes self h p q +
                           (if decide (q = payer1 ∧ p ≠ payer1 ∧ p ∈ ps1)
                            then of_len (times p ps1) * share amount1 ps1 else 0) +
                           (if decide (q = payer2 ∧ p ≠ payer2 ∧ p ∈ ps2)
                            then of_len (times p ps2) * share amount2 ps2 else 0))
                else owed self h p q).
Proof.
  intros Hwf Hps1 Hps2.
  destruct (add_expense_effect self payer1 amount1 ps1 item1 h Hwf Hps1)
    as (h1 & Hrun1 & Hwf1 & Hbal1 & Howed1).
  destruct (add_expense_effect self payer2 amount2 ps2 item2 h1 Hwf1 Hps2)
    as (h2 & Hrun2 & Hwf2 & Hbal2 & Howed2).
  exists h2. split_and!; [| done | |].
  - by rewrite (bind_ok _ _ _ _ _ Hrun1).
  - intros q. by rewrite Hbal2, Hbal1.
  - intros p q. rewrite Howed2. unfold owes at 1. rewrite Howed1.
    destruct (decide (q = payer1 ∧ p ≠ payer1 ∧ p ∈ ps1)) as [H1|H1];
      destruct (decide (q = payer2 ∧ p ≠ payer2 ∧ p ∈ ps2)) as [H2|H2].
    + rewrite decide_True by auto. simpl. f_equal.
    + rewrite decide_True by auto. f_equal. ring.
    + rewrite decide_True by auto. f_equal. unfold owes. ring.
    + by rewrite decide_False by (by intros [?|?]).
Qed.

Lemma share_add amount1 amount2 ps :
  share (amount1 + amount2) ps = share amount1 ps + share amount2 ps.
Proof. unfold share. cbn [div Qc_number]. unfold Qcdiv. ring. Qed.

Lemma others_le payer ps : (others payer ps ≤ length ps)%nat.
Proof.
  induction ps as [|x ps IH]; simpl; [done |]. destruct (String.eqb x payer); lia.
Qed.

Lemma of_len_le (n m : nat) : (n ≤ m)%nat → (of_len n : Qc) ≤ of_len m.
Proof. intros. simpl. rewrite <- Z2Qc_inj_le. lia. Qed.

End compose_facts.

Section compose_claims.
Local Open Scope Qc_scope.
Implicit Types (self : ExpenseManager) (h : heap Qc) (p q payer : string).
Implicit Types (amount : Qc) (ps : list string).

(** X5: in exact arithmetic the order of two expenses does not matter:
    recorded either way round, all balances and all ledger entries come out
    the same. *)
Theorem add_expense_order_irrelevant self payer1 amount1 ps1 item1
    payer2 amount2 ps2 item2 h :
  wf self h → ps1 ≠ [] → ps2 ≠ [] →
  ∃ h12 h21,
    (add_expense self payer1 amount1 ps1 item1;;
     add_expense self payer2 amount2 ps2 item2) h = (Ok (), h12) ∧
    (add_expense self payer2 amount2 ps2 item2;;
     add_expense self payer1 amount1 ps1 item1) h = (Ok (), h21) ∧
    same_numbers self h12 h21.
Proof.
  intros Hwf Hps1 Hps2.
  destruct (two_calls_effect self payer1 amount1 ps1 item1 payer2 amount2 ps2 item2
              h Hwf Hps1 Hps2) as (h12 & Hrun12 & _ & Hbal12 & Howed12).
  destruct (two_calls_effect self payer2 amount2 ps2 item2 payer1 amount1 ps1 item1
              h Hwf Hps2 Hps1) as (h21 & Hrun21 & _ & Hbal21 & Howed21).
  exists h12, h21. split_and!; [done.. |]. split.
  - intros q. rewrite Hbal12, Hbal21. ring.
  - intros p q. rewrite Howed12, Howed21.
    destruct (decide (q = payer1 ∧ p ≠ payer1 ∧ p ∈ ps1)) as [H1|H1];
      destruct (decide (q = payer2 ∧ p ≠ payer2 ∧ p ∈ ps2)) as [H2|H2].
    1-3: rewrite !decide_True by auto; f_equal; ring.
    by rewrite !decide_False by (by intros [?|?]).
Qed.

(** X6: in exact arithmetic amounts add up: two expenses with the same
    payer and the same participants give the balances and ledger entries of
    one expense over the sum of the two amounts. *)
Theorem add_expense_amounts_add_up self payer amount1 amount2 ps item1 item2 item h :
  wf self h → ps ≠ [] →
  ∃ h2 h1,
    (add_expense self payer amount1 ps item1;;
     add_expense self payer amount2 ps item2) h = (Ok (), h2) ∧
    add_expense self payer (amount1 + amount2) ps item h = (Ok (), h1) ∧
    same_numbers self h2 h1.
Proof.
  intros Hwf Hps.
  destruct (two_calls_effect self payer amount1 ps item1 payer amount2 ps item2
              h Hwf Hps Hps) as (h2 & Hrun2 & _ & Hbal2 & Howed2).
  destruct (add_expense_effect self payer (amount1 + amount2) ps item h Hwf Hps)
    as (h1 & Hrun1 & _ & Hbal1 & Howed1).
  exists h2, h1. split_and!; [done.. |]. split.
  - intros q. rewrite Hbal2, Hbal1, share_add. case_decide; ring.
  - intros p q. rewrite Howed2, Howed1, share_add.
    destruct (decide (q = payer ∧ p ≠ payer ∧ p ∈ ps)) as [H1|H1].
    + rewrite decide_True by auto. f_equal. ring.
    + by rewrite decide_False by (by intros [?|?]).
Qed.

(** X13: in exact arithmetic a call with a positive amount moves every
    number one way only: no ledger entry goes down, no balance other than
    the payer's goes up, and the payer's balance does not go down. *)
Theorem valid_expense_is_monotone self payer amount ps item h :
  wf self h → ps ≠ [] → 0 < amount →
  ∃ h', add_expense self payer amount ps item h = (Ok (), h') ∧
        (∀ p q, owes self h p q ≤ owes self h' p q) ∧
        (∀ q, q ≠ payer → balance self h' q ≤ balance self h q) ∧
        balance self h payer ≤ balance self h' payer.
Proof.
  intros Hwf Hps Hamount.
  destruct (add_expense_effect self payer amount ps item h Hwf Hps)
    as (h' & Hrun & _ & Hbal & Howed).
  pose proof (share_pos amount ps Hamount Hps) as Hshare.
  assert (Hinc : ∀ n : nat, 0 ≤ of_len n * share amount ps).
  { intros n. apply Qcmult_nonneg_nonneg; [|by apply Qclt_le_weak].
    rewrite <- of_len_0. apply of_len_le. lia. }
  exists h'. split_and!; [done | | |].
  - intros p q. unfold owes at 2. rewrite Howed. case_decide; [|done]. simpl.
    rewrite <- (Qcplus_0_r (owes self h p q)) at 1.
    apply (proj1 (Qcplus_le_mono_l _ _ _)), (Hinc (times p ps)).
  - intros q Hq. rewrite Hbal, decide_False by done.
    rewrite <- (Qcplus_0_r (balance self h q)) at 2.
    apply (proj1 (Qcplus_le_mono_l _ _ _)).
    apply (proj2 (Qcplus_le_mono_r _ _ (of_len (times q ps) * share amount ps))).
    ring_simplify. apply Hinc.
  - rewrite Hbal, decide_True by done.
    assert (Hge : of_len (others payer ps) * share amount ps ≤ amount).
    { apply Qcle_trans with (of_len (length ps) * share amount ps).
      - apply Qcmult_le_mono_nonneg_r; [by apply Qclt_le_weak |].
        apply of_len_le, others_le.
      - rewrite share_total by done. apply Qcle_refl. }
    rewrite <- (Qcplus_0_r (balance self h payer)) at 1.
    apply (proj1 (Qcplus_le_mono_l _ _ _)).
    apply (proj2 (Qcplus_le_mono_r _ _ (of_len (others payer ps) * share amount ps))).
    replace (0 + of_len (others payer ps) * share amount ps)
      with (of_len (others payer ps) * share amount ps) by ring.
    by replace (amount - of_len (others payer ps) * share amount ps +
                of_len (others payer ps) * share amount ps) with amount by ring.
Qed.

End compose_claims.

(** ** What the two display methods show, in exact arithmetic *)

Section display_facts.
Local Open Scope Qc_scope.
Implicit Types (self : ExpenseManager) (h : heap Qc) (p q a b : string).

Lemma Qc_neg_pos (x : Qc) : x < 0 ↔ 0 < - x.
Proof. by rewrite Qclt_minus_iff, Qcplus_0_l. Qed.

Lemma share_opp (amount : Qc) ps : share (- amount) ps = - share amount ps.
Proof. unfold share. cbn [div Qc_number]. unfold Qcdiv. ring. Qed.

(** A printed debt line shows the net entry of its pair. *)
Lemma detailed_line_entry (total : debts_table Qc) a b v (s1 s2 : string) :
  table_wf total →
  Detailed a b v ∈ Heading s1 :: detailed_pass total ++ Heading s2 :: summary_pass total →
  table_entry total a b = v ∧ 0 < v.
Proof.
  intros Htwf [Hv Hpos]%elem_output_detailed%elem_detailed_pass; [|done].
  rewrite table_entry_get, Hv. split; [done |].
  by apply bool_decide_eq_true in Hpos.
Qed.

Lemma display_balances_run self h (items : Dict.t Qc) :
  balances_of self h = Some items →
  display_balances self h =
  (Ok ((λ '(person, balance), balance_line_of person balance) <$> items), h).
Proof.
  unfold balances_of. intros Hb.
  unfold display_balances, mbind, M_bind, read_floatdict. by rewrite Hb.
Qed.

Lemma balance_line_of_person p (v : Qc) : line_person (balance_line_of p v) = p.
Proof. unfold balance_line_of. by destruct (gt0 v), (lt0 v). Qed.

Lemma balance_line_of_truthful p (v : Qc) :
  match balance_line_of p v with
  | IsOwed p' x => p' = p ∧ v = x ∧ 0 < x
  | Owes p' x => p' = p ∧ v = - x ∧ 0 < x
  | SettledUp p' => p' = p ∧ v = 0
  end.
Proof.
  unfold balance_line_of. cbn [gt0 lt0 opp Qc_number Qc_signed].
  destruct (bool_decide (0 < v)) eqn:Hpos.
  { by apply bool_decide_eq_true in Hpos. }
  apply bool_decide_eq_false in Hpos.
  destruct (bool_decide (v < 0)) eqn:Hneg.
  { apply bool_decide_eq_true in Hneg. split_and!; [done | |].
    - by rewrite Qcopp_involutive.
    - by apply Qc_neg_pos. }
  apply bool_decide_eq_false in Hneg. split; [done |].
  apply Qcle_antisym; by apply Qcnot_lt_le.
Qed.

End display_facts.

Section display_claims.
Local Open Scope Qc_scope.
Implicit Types (self : ExpenseManager) (h : heap Qc) (p q a b : string).

(** X7: the net table of [display_transactions] is antisymmetric, so the
    method never prints a debt in both directions of a pair, never prints
    that somebody owes themselves, and prints at most one amount for a
    pair. *)
Theorem net_debts_are_one_directional self h :
  wf self h →
  ∃ total out,
    aggregate self h = (Ok total, h) ∧
    display_transactions self h = (Ok out, h) ∧
    (∀ a b, table_entry total a b = - table_entry total b a) ∧
    (∀ a b v w, Detailed a b v ∈ out → Detailed b a w ∈ out → False) ∧
    (∀ a b v w, Detailed a b v ∈ out → Detailed a b w ∈ out → v = w).
Proof.
  intros Hwf.
  destruct (display_spec self h Hwf) as (total & Hagg & Hrun & Htwf & Hentry & _).
  eexists total, _. split_and!; [done | done | | |].
  - intros a b. rewrite !Hentry. ring.
  - intros a b v w [Hv Hpos]%detailed_line_entry [Hw Hpos']%detailed_line_entry;
      try done.
    rewrite Hentry in Hv, Hw. apply (Qclt_not_le _ _ Hpos').
    apply Qclt_le_weak, Qc_neg_pos. rewrite <- Hw, <- Hv in *.
    by replace (- (owes self h b a - owes self h a b))
      with (owes self h a b - owes self h b a) by ring.
  - intros a b v w [Hv _]%detailed_line_entry [Hw _]%detailed_line_entry; try done.
    by rewrite <- Hv, <- Hw.
Qed.

(** X8: [display_balances] returns one line per person with a balance, in
    the order of first mention, and leaves the heap alone.  In exact
    arithmetic every line is of the kind the balance calls for and is given
    the right number to format: the balance itself for a balance above 0
    ("is owed"), its negation for a balance below 0 ("owes"), and no number
    for a balance of 0 ("is settled up").  The number handed to the
    two-decimal format is positive. *)
Theorem display_balances_lines self h :
  wf self h →
  ∃ (items : Dict.t Qc) out,
    balances_of self h = Some items ∧
    display_balances self h = (Ok out, h) ∧
    line_person <$> out = Dict.keys items ∧
    ∀ l, l ∈ out →
         match l with
         | IsOwed p v => balance self h p = v ∧ 0 < v
         | Owes p v => balance self h p = - v ∧ 0 < v
         | SettledUp p => balance self h p = 0
         end.
Proof.
  intros [(items & Hb & Hnd) _]. exists items. eexists.
  split_and!; [done | by apply display_balances_run | |].
  - unfold Dict.keys. rewrite <- list_fmap_compose. apply list_fmap_ext.
    intros i [p v] _. apply balance_line_of_person.
  - intros l ([p v] & -> & Hin)%list_elem_of_fmap.
    assert (Hp : balance self h p = v).
    { unfold balance, balances_of. rewrite Hb. simpl.
      by rewrite (DictFacts.elem_get _ _ _ Hnd Hin). }
    pose proof (balance_line_of_truthful p v) as Hline.
    destruct (balance_line_of p v) as [p' x|p' x|p'].
    + destruct Hline as (-> & -> & ?). by rewrite Hp.
    + destruct Hline as (-> & -> & ?). by rewrite Hp.
    + destruct Hline as (-> & ->). by rewrite Hp.
Qed.

(** X10: the amount is not validated.  In exact arithmetic a call with a
    negative amount on a new manager returns normally and records a negative
    ledger entry for every listed participant other than the payer;
    [display_transactions] then reports the debt the other way round, the
    payer owing that participant, and no debt of the participant. *)
Theorem negative_amount_reverses_the_debt payer (amount : Qc) ps item
    (h0 : heap Qc) p :
  amount < 0 → p ∈ ps → p ≠ payer →
  ∃ self h out v,
    single_expense payer amount ps item h0 = (Ok self, h) ∧
    owed self h p payer = Some v ∧ v < 0 ∧
    display_transactions self h = (Ok out, h) ∧
    Detailed payer p (- v) ∈ out ∧
    (∀ w, Detailed p payer w ∉ out).
Proof.
  intros Hamount Hin Hne.
  assert (Hps : ps ≠ []) by (intros ->; by apply elem_of_nil in Hin).
  destruct (init_ok h0) as (self & h1 & Hinit & Hwf1 & _ & Howed1).
  destruct (add_expense_effect self payer amount ps item h1 Hwf1 Hps)
    as (h & Hrun & Hwf & _ & Howed).
  destruct (display_spec self h Hwf) as (total & Hagg & Hdisp & Htwf & Hentry & Hsome).
  set (v := of_len (times p ps) * share amount ps).
  assert (Hv : owed self h p payer = Some v).
  { rewrite Howed, decide_True by done. unfold owes. rewrite Howed1. simpl.
    f_equal. unfold v. simpl. ring. }
  assert (Hback : owed self h payer p = None).
  { rewrite Howed, decide_False by (by intros (? & _)). apply Howed1. }
  assert (Hneg : 0 < - v).
  { unfold v. replace (- (of_len (times p ps) * share amount ps))
      with (of_len (times p ps) * share (- amount) ps) by (rewrite share_opp; ring).
    apply Qcmult_pos_pos; [by apply of_len_pos, times_pos |].
    apply share_pos; [by apply Qc_neg_pos | done]. }
  assert (Hnet : table_entry total payer p = - v).
  { rewrite Hentry. unfold owes. rewrite Hv, Hback. simpl. ring. }
  eexists self, h, _, v. split_and!; [| done | by apply Qc_neg_pos | done | |].
  - unfold single_expense.
    rewrite (bind_ok _ _ _ _ _ Hinit). by rewrite (bind_ok _ _ _ _ _ Hrun).
  - apply elem_output_detailed, elem_detailed_pass; [done |]. split.
    + destruct (Hsome payer p) as [x Hx]; [right; by eexists |].
      rewrite Hx. f_equal. by rewrite <- Hnet, table_entry_get, Hx.
    + by apply bool_decide_eq_true.
  - intros w [Hw Hpos]%detailed_line_entry; [|done].
    rewrite Hentry in Hw. unfold owes in Hw. rewrite Hv, Hback in Hw. simpl in Hw.
    apply (Qclt_not_le _ _ Hpos), Qclt_le_weak. rewrite <- Hw.
    apply Qc_neg_pos. by replace (- (v - 0)) with (- v) by ring.
Qed.

End display_claims.

(** ** Snapshots and later calls *)

Section footprint_facts.
Context {F : Type} `{!Number F}.
Implicit Types (self : ExpenseManager) (h : heap F) (p q payer : string).
Implicit Types (ps : list string).

Lemma grows_refl self h : grows self h h.
Proof. split_and!; [done.. |]. intros t p l Ht Hp. by exists t. Qed.

Lemma grows_trans self h1 h2 h3 :
  grows self h1 h2 → grows self h2 h3 → grows self h1 h3.
Proof.
  intros (Hf12 & Hn12 & Hb12) (Hf23 & Hn23 & Hb23). split_and!.
  - intros r Hr. destruct (Hf12 r Hr) as [Hr2 Heq12].
    destruct (Hf23 r Hr2) as [Hr3 Heq23]. split; [done |]. by rewrite Heq23.
  - intros r Hr. by rewrite Hn23, Hn12.
  - intros t p l Ht Hp. destruct (Hb12 t p l Ht Hp) as (t2 & Ht2 & Hp2).
    by apply (Hb23 t2).
Qed.

(** Writing the balances or an inner ledger. *)
Lemma grows_put_own self h l (d : Dict.t F) :
  (l = balances self ∨
   ∃ t, nesteddicts h !! transactions self = Some t ∧ l ∈ Dict.values t) →
  grows self h (put_float l d h).
Proof.
  intros Hown. split_and!; [| done |]; simpl.
  - intros r (Hsome & Hbal & Hinner).
    assert (l ≠ r).
    { intros ->. destruct Hown as [?|(t & Ht & Hl)]; [done |]. by apply (Hinner t). }
    rewrite list_lookup_insert_ne by done. split; [|done].
    split_and!; [|done..]. simpl. by rewrite list_lookup_insert_ne.
  - intros t p l' Ht Hp. by exists t.
Qed.

(** Creating the inner ledger of a new person. *)
Lemma grows_new_ledger self h (t : Dict.t loc) p :
  nesteddicts h !! transactions self = Some t → Dict.get t p = None →
  grows self h
    (Heap (floatdicts h ++ [[]])
          (<[transactions self := t ++ [(p, length (floatdicts h))]]> (nesteddicts h))).
Proof.
  intros Ht Hp. pose proof (lookup_lt_Some _ _ _ Ht) as Hlt. split_and!; simpl.
  - intros r ([d Hd] & Hbal & Hinner).
    pose proof (lookup_lt_Some _ _ _ Hd) as Hr.
    rewrite (lookup_app_l_Some _ _ _ _ Hd). split; [|done].
    unfold foreign. simpl. rewrite (lookup_app_l_Some _ _ _ _ Hd).
    split_and!; [by eexists | done |].
    rewrite list_lookup_insert_eq by done. intros ? [= <-].
    unfold Dict.values. rewrite fmap_app. simpl.
    intros [Hin|[->|[]%elem_of_nil]%elem_of_cons]%elem_of_app; [|lia].
    by apply (Hinner t).
  - intros r Hr. by rewrite list_lookup_insert_ne.
  - intros t0 p' l. rewrite Ht. intros [= <-] Hp'. eexists.
    split; [by apply list_lookup_insert_eq |].
    rewrite DictMore.get_app_fresh by done. case_decide; [congruence | done].
Qed.

Lemma balance_update_grows (f : F → F) self k h h' :
  wf self h →
  (v ← float_getitem (balances self) k;
   float_setitem (balances self) k (f v)) h = (Ok (), h') →
  grows self h h'.
Proof.
  intros [(b & Hb & _) _]. rewrite (float_update_run f _ k h b Hb).
  intros [= <-]. apply grows_put_own. by left.
Qed.

Lemma nested_getitem_grows self p h l h' :
  wf self h →
  nested_getitem (transactions self) p h = (Ok l, h') →
  grows self h h'.
Proof.
  intros [_ (t & Ht & _)]. destruct (Dict.get t p) as [l'|] eqn:Hp.
  - rewrite (nested_getitem_present _ _ _ _ _ Ht Hp). intros [= _ <-].
    apply grows_refl.
  - rewrite (nested_getitem_missing _ _ _ _ Ht Hp). intros [= _ <-].
    by apply grows_new_ledger.
Qed.

Lemma inner_update_grows (f : F → F) self p l k h t h' :
  wf self h →
  nesteddicts h !! transactions self = Some t → Dict.get t p = Some l →
  (v ← float_getitem l k; float_setitem l k (f v)) h = (Ok (), h') →
  grows self h h'.
Proof.
  intros Hwf Ht Hp. destruct (wf_inner _ _ _ _ _ Hwf Ht Hp) as (_ & d & Hd & _).
  rewrite (float_update_run f l k h d Hd). intros [= <-].
  apply grows_put_own. right. exists t. split; [done |].
  by eapply DictMore.get_Some_value.
Qed.

Lemma split_step_grows self payer s person h :
  wf self h → person ≠ payer →
  ∃ h', split_step self payer s person h = (Ok (), h') ∧
        wf self h' ∧ grows self h h'.
Proof.
  intros Hwf Hne.
  destruct (balance_update (λ v, sub v s) self person h Hwf)
    as (h1 & Hrun1 & Hwf1 & _).
  destruct (balance_update (λ v, sub v s) self payer h1 Hwf1)
    as (h2 & Hrun2 & Hwf2 & _).
  destruct (nested_getitem_wf self person h2 Hwf2)
    as (l & h3 & Hrun3 & Hwf3 & (t3 & Ht3 & Hl3) & _).
  destruct (inner_update (λ v, add v s) self person l payer h3 t3 Hwf3 Ht3 Hl3)
    as (h4 & Hrun4 & Hwf4 & _).
  exists h4. split_and!; [| done |].
  - unfold split_step. apply String.eqb_neq in Hne. rewrite Hne. simpl.
    rewrite (bind_ok _ _ _ _ _ Hrun1), (bind_ok _ _ _ _ _ Hrun2).
    by rewrite (bind_ok _ _ _ _ _ Hrun3).
  - eapply grows_trans; [exact (balance_update_grows _ _ _ _ _ Hwf Hrun1) |].
    eapply grows_trans; [exact (balance_update_grows _ _ _ _ _ Hwf1 Hrun2) |].
    eapply grows_trans; [exact (nested_getitem_grows _ _ _ _ _ Hwf2 Hrun3) |].
    exact (inner_update_grows _ _ _ _ _ _ _ _ Hwf3 Ht3 Hl3 Hrun4).
Qed.

Lemma split_loop_grows self payer s ps h :
  wf self h →
  ∃ h', for_each ps (split_step self payer s) h = (Ok (), h') ∧
        wf self h' ∧ grows self h h'.
Proof.
  revert h. induction ps as [|x ps IH]; intros h Hwf.
  - exists h. split_and!; [done.. |]. apply grows_refl.
  - cbn [for_each]. destruct (decide (x = payer)) as [->|Hx].
    + rewrite (bind_ok _ _ _ _ _ (split_step_payer self payer s h)). by apply IH.
    + destruct (split_step_grows self payer s x h Hwf Hx) as (h1 & Hrun1 & Hwf1 & Hg1).
      rewrite (bind_ok _ _ _ _ _ Hrun1).
      destruct (IH h1 Hwf1) as (h' & Hrun & Hwf' & Hg).
      exists h'. split_and!; [done.. |]. by eapply grows_trans.
Qed.

Lemma add_expense_grows self payer (amount : F) ps item h :
  wf self h → ps ≠ [] →
  ∃ h', add_expense self payer amount ps item h = (Ok (), h') ∧
        wf self h' ∧ grows self h h'.
Proof.
  intros Hwf Hps.
  destruct (balance_update (λ v, add v amount) self payer h Hwf)
    as (h1 & Hrun1 & Hwf1 & _).
  destruct (split_loop_grows self payer (share amount ps) ps h1 Hwf1)
    as (h' & Hrun & Hwf' & Hg).
  exists h'. split_and!; [| done |].
  - rewrite add_expense_unfold.
    rewrite (bind_ok _ _ _ _ _ (truediv_run amount ps h Hps)).
    by rewrite (bind_ok _ _ _ _ _ Hrun1).
  - eapply grows_trans; [exact (balance_update_grows _ _ _ _ _ Hwf Hrun1) | done].
Qed.

End footprint_facts.

Section footprint_claims.
Context {F : Type} `{!Number F}.
Implicit Types (self : ExpenseManager) (h : heap F) (p q payer : string).
Implicit Types (ps : list string).

(** X9: the dictionary returned by [get_balances] is a copy for good: a
    call of [add_expense] made after it leaves the returned dictionary with
    the items the balances had when it was taken. *)
Theorem balances_snapshot_survives_add_expense self payer (amount : F) ps item h :
  wf self h → ps ≠ [] →
  ∃ r h1 h2,
    get_balances self h = (Ok r, h1) ∧
    add_expense self payer amount ps item h1 = (Ok (), h2) ∧
    floatdicts h2 !! r = balances_of self h.
Proof.
  intros Hwf Hps. pose proof Hwf as [(b & Hb & _) (t & Ht & _ & _ & Hin)].
  destruct (get_balances_copy self h Hwf) as (r & h1 & Hrun1 & Hwf1 & _).
  pose proof Hrun1 as Hrun1'. rewrite (get_balances_run self h b Hb) in Hrun1'.
  injection Hrun1' as <- <-.
  set (h1 := Heap (floatdicts h ++ [b]) (nesteddicts h)) in *.
  destruct (add_expense_grows self payer amount ps item h1 Hwf1 Hps)
    as (h2 & Hrun2 & _ & Hgrows & _).
  exists (length (floatdicts h)), h1, h2. split_and!; [done.. |].
  assert (Hsnap : floatdicts h1 !! length (floatdicts h) = Some b)
    by by apply list_lookup_middle.
  destruct (Hgrows (length (floatdicts h))) as [_ ->].
  - split_and!; [by eexists | |].
    + apply lookup_lt_Some in Hb. lia.
    + simpl. rewrite Ht. intros ? [= <-] Hl.
      destruct (Hin _ Hl) as (_ & d & Hd%lookup_lt_Some & _). lia.
  - unfold balances_of. by rewrite Hsnap, Hb.
Qed.

(** X11: the dictionary returned by [get_transactions] keeps its own list
    of persons but not its own numbers: after a later [add_expense] it
    still has exactly the persons and inner ledgers it was made with, and
    what it shows for each of them is the manager's current ledger of that
    person. *)
Theorem transactions_snapshot_follows_add_expense self payer (amount : F) ps item h :
  wf self h → ps ≠ [] →
  ∃ r h1 h2,
    get_transactions self h = (Ok r, h1) ∧
    add_expense self payer amount ps item h1 = (Ok (), h2) ∧
    nesteddicts h2 !! r = nesteddicts h !! transactions self ∧
    ∀ t p l, nesteddicts h2 !! r = Some t → Dict.get t p = Some l →
             floatdicts h2 !! l = debts_of self h2 p.
Proof.
  intros Hwf Hps. pose proof Hwf as [_ (t & Ht & _)].
  destruct (get_transactions_copy self h Hwf) as (r & h1 & Hrun1 & Hwf1 & _).
  pose proof Hrun1 as Hrun1'. rewrite (get_transactions_run self h t Ht) in Hrun1'.
  injection Hrun1' as <- <-.
  set (h1 := Heap (floatdicts h) (nesteddicts h ++ [t])) in *.
  destruct (add_expense_grows self payer amount ps item h1 Hwf1 Hps)
    as (h2 & Hrun2 & _ & _ & Hnested & Hbind).
  exists (length (nesteddicts h)), h1, h2. split_and!; [done.. | |].
  - rewrite Hnested by (apply lookup_lt_Some in Ht; lia).
    rewrite Ht. by apply list_lookup_middle.
  - rewrite Hnested by (apply lookup_lt_Some in Ht; lia).
    replace (nesteddicts h1 !! length (nesteddicts h)) with (Some t)
      by (symmetry; by apply list_lookup_middle).
    intros ? p l [= <-] Hp.
    destruct (Hbind t p l) as (t2 & Ht2 & Hp2); [by apply lookup_app_l_Some | done |].
    unfold debts_of. rewrite Ht2. simpl. by rewrite Hp2.
Qed.

End footprint_claims.

(** ** Balances against the ledger *)

Section debts_facts.
Context {F : Type} `{!Number F}.
Implicit Types (self : ExpenseManager) (h : heap F) (p q payer person : string).

Lemma nested_getitem_debts self person h l h' :
  wf self h →
  nested_getitem (transactions self) person h = (Ok l, h') →
  debts_of self h' person = Some (default [] (debts_of self h person)) ∧
  (∀ p, p ≠ person → debts_of self h' p = debts_of self h p).
Proof.
  intros Hwf. pose proof Hwf as [_ (t & Ht & _)].
  pose proof (lookup_lt_Some _ _ _ Ht) as Hlt.
  destruct (Dict.get t person) as [l'|] eqn:Hp.
  - rewrite (nested_getitem_present _ _ _ _ _ Ht Hp). intros [= <- <-].
    destruct (wf_inner _ _ _ _ _ Hwf Ht Hp) as (_ & d & Hd & _).
    split; [|done]. unfold debts_of. rewrite Ht. simpl. rewrite Hp. simpl.
    by rewrite Hd.
  - rewrite (nested_getitem_missing _ _ _ _ Ht Hp). intros [= <- <-].
    unfold debts_of. simpl. rewrite list_lookup_insert_eq, Ht by done. simpl.
    split.
    + rewrite DictMore.get_app_fresh, decide_True, Hp by done. simpl.
      by apply list_lookup_middle.
    + intros p Hne. rewrite DictMore.get_app_fresh, decide_False by done.
      destruct (Dict.get t p) as [l'|] eqn:Hp'; simpl; [|done].
      destruct (wf_inner _ _ _ _ _ Hwf Ht Hp') as (_ & d & Hd & _).
      by rewrite (lookup_app_l_Some _ _ _ _ Hd).
Qed.

Lemma inner_update_debts (f : F → F) self person l k h t d h' :
  wf self h →
  nesteddicts h !! transactions self = Some t → Dict.get t person = Some l →
  debts_of self h person = Some d →
  (v ← float_getitem l k; float_setitem l k (f v)) h = (Ok (), h') →
  debts_of self h' person = Some (items_update f d k) ∧
  (∀ p, p ≠ person → debts_of self h' p = debts_of self h p).
Proof.
  intros Hwf Ht Hp Hd. pose proof Hwf as [_ (t' & Ht' & _ & Hv & _)].
  rewrite Ht in Ht'. injection Ht' as <-.
  unfold debts_of in Hd. rewrite Ht in Hd. simpl in Hd. rewrite Hp in Hd.
  simpl in Hd. pose proof (lookup_lt_Some _ _ _ Hd) as Hlt.
  rewrite (float_update_run f l k h d Hd). intros [= <-].
  unfold debts_of, put_float. simpl. rewrite Ht. simpl. split.
  - rewrite Hp. simpl. by apply list_lookup_insert_eq.
  - intros p Hne. destruct (Dict.get t p) as [l'|] eqn:Hp'; simpl; [|done].
    rewrite list_lookup_insert_ne; [done |]. intros <-.
    apply Hne. by eapply DictMore.get_values_inj.
Qed.

Lemma split_step_debts self payer s person h h' :
  wf self h → person ≠ payer →
  split_step self payer s person h = (Ok (), h') →
  debts_of self h' person =
    Some (items_update (λ v, add v s) (default [] (debts_of self h person)) payer) ∧
  (∀ p, p ≠ person → debts_of self h' p = debts_of self h p).
Proof.
  intros Hwf Hne.
  destruct (balance_update (λ v, sub v s) self person h Hwf)
    as (h1 & Hrun1 & Hwf1 & _ & Hdebts1).
  destruct (balance_update (λ v, sub v s) self payer h1 Hwf1)
    as (h2 & Hrun2 & Hwf2 & _ & Hdebts2).
  destruct (nested_getitem_wf self person h2 Hwf2)
    as (l & h3 & Hrun3 & Hwf3 & (t3 & Ht3 & Hl3) & _).
  destruct (nested_getitem_debts self person h2 l h3 Hwf2 Hrun3) as [Hd3 Hother3].
  destruct (inner_update (λ v, add v s) self person l payer h3 t3 Hwf3 Ht3 Hl3)
    as (h4 & Hrun4 & _).
  destruct (inner_update_debts (λ v, add v s) self person l payer h3 t3 _ h4
              Hwf3 Ht3 Hl3 Hd3 Hrun4) as [Hd4 Hother4].
  unfold split_step. apply String.eqb_neq in Hne. rewrite Hne. simpl.
  rewrite (bind_ok _ _ _ _ _ Hrun1), (bind_ok _ _ _ _ _ Hrun2).
  rewrite (bind_ok _ _ _ _ _ Hrun3).
  change (float_iadd l payer s h3) with
    ((v ← float_getitem l payer; float_setitem l payer (add v s)) h3).
  rewrite Hrun4. intros [= <-]. split.
  - by rewrite Hd4, Hdebts2, Hdebts1.
  - intros p Hp. by rewrite Hother4, Hother3, Hdebts2, Hdebts1.
Qed.

(** The invariant lemma for runs whose calls all satisfy [P]. *)
Lemma add_expenses_invariant_on (P : call F → Prop) (I : heap F → Prop)
    self (calls : list (call F)) h r h' :
  (∀ c h1 h2, P c → wf self h1 → I h1 → participants_of c ≠ [] →
     add_expense self (payer_of c) (amount_of c) (participants_of c) (item_of c) h1 =
       (Ok (), h2) → I h2) →
  Forall P calls → wf self h → I h →
  add_expenses self calls h = (r, h') →
  I h'.
Proof.
  intros Hstep Hall. revert h. induction Hall as [|c calls Hc _ IH]; intros h Hwf HI.
  - rewrite add_expenses_nil. by intros [= _ <-].
  - destruct (decide (participants_of c = [])) as [Hps|Hps].
    + rewrite add_expenses_cons_empty by done. by intros [= _ <-].
    + destruct (add_expense_wf self (payer_of c) (amount_of c) (participants_of c)
                  (item_of c) h Hwf Hps) as (h1 & Hrun1 & Hwf1).
      rewrite (add_expenses_cons_ok _ _ _ _ _ Hrun1).
      apply IH; [done |]. by apply (Hstep c h h1).
Qed.

End debts_facts.

Section debts_exact.
Local Open Scope Qc_scope.
Implicit Types (self : ExpenseManager) (h : heap Qc) (p q payer person : string).
Implicit Types (ps : list string).

Lemma owes_total_debts self h h' p :
  debts_of self h' p = debts_of self h p → owes_total self h' p = owes_total self h p.
Proof. unfold owes_total. by intros ->. Qed.

Lemma owes_total_split_step self payer s person h h' :
  wf self h → person ≠ payer →
  split_step self payer s person h = (Ok (), h') →
  ∀ p, owes_total self h' p =
       owes_total self h p + (if decide (p = person) then s else 0).
Proof.
  intros Hwf Hne Hrun p.
  destruct (split_step_debts self payer s person h h' Hwf Hne Hrun) as [Hd Hother].
  destruct (decide (p = person)) as [->|Hp].
  - unfold owes_total. rewrite Hd. simpl.
    change (fold_left add ?l zero) with (fold_left Qcplus l 0).
    rewrite sum_items_update. cbn [add zero Qc_number].
    destruct (debts_of self h person); simpl; ring.
  - rewrite (owes_total_debts _ _ _ _ (Hother p Hp)). ring.
Qed.

Lemma owes_total_split_loop self payer s ps h :
  wf self h →
  ∃ h', for_each ps (split_step self payer s) h = (Ok (), h') ∧
        ∀ p, owes_total self h' p =
             owes_total self h p +
             (if decide (p = payer) then 0 else of_len (times p ps) * s).
Proof.
  revert h. induction ps as [|x ps IH]; intros h Hwf.
  - exists h. split; [done |]. intros p. cbn [times]. rewrite of_len_0.
    case_decide; ring.
  - cbn [for_each times]. destruct (decide (x = payer)) as [->|Hx].
    + rewrite (bind_ok _ _ _ _ _ (split_step_payer self payer s h)).
      destruct (IH h Hwf) as (h' & Hrun & Htotal).
      exists h'. split; [done |]. intros p. rewrite Htotal.
      case_decide; [done |].
      rewrite (proj2 (String.eqb_neq payer p)) by done.
      rewrite of_len_add, of_len_0. ring.
    + destruct (split_step_other self payer s x h Hwf Hx) as (h1 & Hrun1 & Hwf1 & _).
      rewrite (bind_ok _ _ _ _ _ Hrun1).
      destruct (IH h1 Hwf1) as (h' & Hrun & Htotal).
      exists h'. split; [done |]. intros p.
      rewrite Htotal, (owes_total_split_step self payer s x h h1 Hwf Hx Hrun1).
      rewrite of_len_add.
      destruct (decide (p = x)) as [->|Hpx].
      * rewrite String.eqb_refl. cbv iota. rewrite of_len_1.
        destruct (decide (x = payer)); [done | ring].
      * rewrite (proj2 (String.eqb_neq x p)) by done.
        cbv iota. rewrite of_len_0. case_decide; ring.
Qed.

Lemma owes_total_add_expense self payer (amount : Qc) ps item h h' :
  wf self h → ps ≠ [] →
  add_expense self payer amount ps item h = (Ok (), h') →
  ∀ p, owes_total self h' p =
       owes_total self h p +
       (if decide (p = payer) then 0 else of_len (times p ps) * share amount ps).
Proof.
  intros Hwf Hps Hrun p.
  destruct (balance_update (λ v, add v amount) self payer h Hwf)
    as (h1 & Hrun1 & Hwf1 & _ & Hdebts1).
  destruct (owes_total_split_loop self payer (share amount ps) ps h1 Hwf1)
    as (h2 & Hrun2 & Htotal).
  rewrite add_expense_unfold in Hrun.
  rewrite (bind_ok _ _ _ _ _ (truediv_run amount ps h Hps)) in Hrun.
  rewrite (bind_ok _ _ _ _ _ Hrun1), Hrun2 in Hrun. injection Hrun as <-.
  by rewrite Htotal, (owes_total_debts _ _ _ _ (Hdebts1 p)).
Qed.

Lemma balance_add_expense self payer (amount : Qc) ps item h h' :
  wf self h → ps ≠ [] →
  add_expense self payer amount ps item h = (Ok (), h') →
  ∀ q, balance self h' q =
       balance self h q +
       (if decide (q = payer)
        then amount - of_len (others payer ps) * share amount ps
        else - (of_len (times q ps) * share amount ps)).
Proof.
  intros Hwf Hps Hrun.
  destruct (add_expense_effect self payer amount ps item h Hwf Hps)
    as (h2 & Hrun2 & _ & Hbal & _).
  rewrite Hrun in Hrun2. by injection Hrun2 as <-.
Qed.

(** X14: for somebody who has paid nothing the balances agree with the
    ledger.  After any run of calls on a new manager in which [p] is never
    the payer, also one that stops at a call that raises, the balance of
    [p] is minus the sum of the ledger entries of [p], in exact
    arithmetic. *)
Theorem non_payer_balance_matches_ledger (calls : list (call Qc)) (h0 : heap Qc)
    self h1 r h p :
  __init__ h0 = (Ok self, h1) →
  Forall (λ c, payer_of c ≠ p) calls →
  add_expenses self calls h1 = (r, h) →
  balance self h p = - owes_total self h p.
Proof.
  intros Hinit Hcalls Hrun.
  destruct (init_fresh h0 self h1 Hinit) as (Hwf1 & _ & HL & Hbal1 & _).
  assert (Hzero : balance self h p + owes_total self h p = 0).
  { eapply (add_expenses_invariant_on (λ c, payer_of c ≠ p)
              (λ h, balance self h p + owes_total self h p = 0));
      [| exact Hcalls | exact Hwf1 | | exact Hrun].
    - intros c ha hb Hc Hwfa Ha Hps Hcall.
      rewrite (balance_add_expense _ _ _ _ _ _ _ Hwfa Hps Hcall).
      rewrite (owes_total_add_expense _ _ _ _ _ _ _ Hwfa Hps Hcall).
      rewrite !decide_False by done. rewrite <- Ha. ring.
    - rewrite Hbal1. unfold owes_total, debts_of.
      unfold transactions_of in HL.
      destruct (nesteddicts h1 !! transactions self) as [t|]; simpl in *; [|ring].
      destruct t as [|[? ?] ?]; simpl in *; [ring |].
      by destruct (floatdicts h1 !! _); simpl in HL;
        try destruct (mapM _ _); simpl in HL. }
  rewrite <- (Qcplus_0_r (- owes_total self h p)), <- Hzero. ring.
Qed.

End debts_exact.

(** ** Instances of the further properties *)

Lemma add_expense_leaves_others_alone_witness :
  wf example_manager example_heap ∧ ["A"] ≠ [] ∧
  ∃ h', add_expense example_manager "C" (Qc_of_Z 30) ["A"] None example_heap =
          (Ok (), h') ∧
        balance example_manager h' "B" = balance example_manager example_heap "B".
Proof.
  assert (Hps : ["A"] ≠ []) by discriminate.
  split_and!; [exact example_wf | exact Hps |].
  destruct (add_expense_leaves_others_alone example_manager "C" (Qc_of_Z 30) ["A"]
              None example_heap example_wf Hps) as (h' & Hrun & Hbal & _).
  exists h'. split; [exact Hrun |]. apply Hbal; [discriminate | by_decide].
Defined.

Lemma payer_only_expense_is_a_credit_witness :
  wf example_manager example_heap ∧ ["A"] ≠ [] ∧ Forall (λ x, x = "A") ["A"] ∧
  ∃ h', add_expense example_manager "A" (Qc_of_Z 50) ["A"] None example_heap =
          (Ok (), h') ∧
        transactions_of example_manager h' =
          transactions_of example_manager example_heap.
Proof.
  assert (Hps : ["A"] ≠ []) by discriminate.
  assert (Hall : Forall (λ x, x = "A") ["A"]) by (by repeat constructor).
  split_and!; [exact example_wf | exact Hps | exact Hall |].
  destruct (payer_only_expense_is_a_credit example_manager "A" (Qc_of_Z 50) ["A"]
              None example_heap example_wf Hps Hall) as (h' & Hrun & _ & _ & Hledger).
  exists h'. split; [exact Hrun | exact Hledger].
Defined.

Lemma add_expense_known_persons_witness :
  wf example_manager example_heap ∧ ["A"] ≠ [] ∧
  ∃ h', add_expense example_manager "C" (Qc_of_Z 30) ["A"] None example_heap =
          (Ok (), h') ∧
        known example_manager h' "C".
Proof.
  assert (Hps : ["A"] ≠ []) by discriminate.
  split_and!; [exact example_wf | exact Hps |].
  destruct (add_expense_known_persons example_manager "C" (Qc_of_Z 30) ["A"]
              None example_heap example_wf Hps) as (h' & Hrun & Hknown).
  exists h'. split; [exact Hrun |]. apply Hknown. right. by left.
Defined.

Lemma ledger_is_between_known_persons_witness :
  __init__ (empty_heap (F := Qc)) = (Ok example_manager, Heap [[]] [[]]) ∧
  ∀ p, owed example_manager
         (add_expenses example_manager [Call "A" (Qc_of_Z 100) ["A"; "B"] None]
            (Heap [[]] [[]])).2 p p = None.
Proof.
  split; [reflexivity |].
  apply (ledger_is_between_known_persons
           [Call "A" (Qc_of_Z 100) ["A"; "B"] None] empty_heap example_manager
           (Heap [[]] [[]]) _ _ eq_refl (surjective_pairing _)).
Defined.

Lemma runs_keep_the_manager_sound_witness :
  __init__ (empty_heap (F := Qc)) = (Ok example_manager, Heap [[]] [[]]) ∧
  wf example_manager
    (add_expenses example_manager [Call "A" (Qc_of_Z 100) ["A"; "B"] None]
       (Heap [[]] [[]])).2.
Proof.
  split; [reflexivity |].
  apply (runs_keep_the_manager_sound
           [Call "A" (Qc_of_Z 100) ["A"; "B"] None] empty_heap example_manager
           (Heap [[]] [[]]) _ _ eq_refl (surjective_pairing _)).
Defined.

Lemma non_payer_balance_matches_ledger_witness :
  __init__ (empty_heap (F := Qc)) = (Ok example_manager, Heap [[]] [[]]) ∧
  Forall (λ c, payer_of c ≠ "B") [Call "A" (Qc_of_Z 100) ["A"; "B"] None] ∧
  balance example_manager
    (add_expenses example_manager [Call "A" (Qc_of_Z 100) ["A"; "B"] None]
       (Heap [[]] [[]])).2 "B" =
  (- owes_total example_manager
       (add_expenses example_manager [Call "A" (Qc_of_Z 100) ["A"; "B"] None]
          (Heap [[]] [[]])).2 "B")%Qc.
Proof.
  assert (Hcalls : Forall (λ c : call Qc, payer_of c ≠ "B")
                     [Call "A" (Qc_of_Z 100) ["A"; "B"] None]).
  { apply Forall_cons; [discriminate | apply Forall_nil]. }
  split_and!; [reflexivity | exact Hcalls |].
  apply (non_payer_balance_matches_ledger
           [Call "A" (Qc_of_Z 100) ["A"; "B"] None] empty_heap example_manager
           (Heap [[]] [[]]) _ _ "B" eq_refl Hcalls (surjective_pairing _)).
Defined.

Lemma add_expense_order_irrelevant_witness :
  wf example_manager example_heap ∧ ["A"; "B"] ≠ [] ∧ ["C"] ≠ [] ∧
  ∃ h12 h21,
    (add_expense example_manager "A" (Qc_of_Z 10) ["A"; "B"] None;;
     add_expense example_manager "B" (Qc_of_Z 7) ["C"] None) example_heap =
      (Ok (), h12) ∧
    (add_expense example_manager "B" (Qc_of_Z 7) ["C"] None;;
     add_expense example_manager "A" (Qc_of_Z 10) ["A"; "B"] None) example_heap =
      (Ok (), h21) ∧
    same_numbers example_manager h12 h21.
Proof.
  assert (Hps1 : ["A"; "B"] ≠ []) by discriminate.
  assert (Hps2 : ["C"] ≠ []) by discriminate.
  split_and!; [exact example_wf | exact Hps1 | exact Hps2 |].
  exact (add_expense_order_irrelevant example_manager "A" (Qc_of_Z 10) ["A"; "B"] None
           "B" (Qc_of_Z 7) ["C"] None example_heap example_wf Hps1 Hps2).
Defined.

Lemma add_expense_amounts_add_up_witness :
  wf example_manager example_heap ∧ ["A"; "B"] ≠ [] ∧
  ∃ h2 h1,
    (add_expense example_manager "A" (Qc_of_Z 10) ["A"; "B"] None;;
     add_expense example_manager "A" (Qc_of_Z 7) ["A"; "B"] None) example_heap =
      (Ok (), h2) ∧
    add_expense example_manager "A" (Qc_of_Z 10 + Qc_of_Z 7)%Qc ["A"; "B"] None
      example_heap = (Ok (), h1) ∧
    same_numbers example_manager h2 h1.
Proof.
  assert (Hps : ["A"; "B"] ≠ []) by discriminate.
  split_and!; [exact example_wf | exact Hps |].
  exact (add_expense_amounts_add_up example_manager "A" (Qc_of_Z 10) (Qc_of_Z 7)
           ["A"; "B"] None None None example_heap example_wf Hps).
Defined.

Lemma valid_expense_is_monotone_witness :
  wf example_manager example_heap ∧ ["A"; "B"] ≠ [] ∧ (0 < Qc_of_Z 10)%Qc ∧
  ∃ h', add_expense example_manager "A" (Qc_of_Z 10) ["A"; "B"] None example_heap =
          (Ok (), h') ∧
        (balance example_manager example_heap "A" ≤ balance example_manager h' "A")%Qc.
Proof.
  assert (Hps : ["A"; "B"] ≠ []) by discriminate.
  assert (Hpos : (0 < Qc_of_Z 10)%Qc) by reflexivity.
  split_and!; [exact example_wf | exact Hps | exact Hpos |].
  destruct (valid_expense_is_monotone example_manager "A" (Qc_of_Z 10) ["A"; "B"]
              None example_heap example_wf Hps Hpos) as (h' & Hrun & _ & _ & Hpayer).
  exists h'. split; [exact Hrun | exact Hpayer].
Defined.

Lemma net_debts_are_one_directional_witness :
  wf example_manager example_heap ∧
  ∃ out, display_transactions example_manager example_heap = (Ok out, example_heap) ∧
         ∀ a b v w, Detailed a b v ∈ out → Detailed b a w ∈ out → False.
Proof.
  split; [exact example_wf |].
  destruct (net_debts_are_one_directional example_manager example_heap example_wf)
    as (total & out & _ & Hrun & _ & Hone & _).
  exists out. split; [exact Hrun | exact Hone].
Defined.

Lemma display_balances_lines_witness :
  wf example_manager example_heap ∧
  ∃ out, display_balances example_manager example_heap = (Ok out, example_heap) ∧
         line_person <$> out = ["A"; "B"].
Proof.
  split; [exact example_wf |].
  destruct (display_balances_lines example_manager example_heap example_wf)
    as (items & out & Hitems & Hrun & Hnames & _).
  exists out. split; [exact Hrun |].
  injection Hitems as <-. exact Hnames.
Defined.

Lemma negative_amount_reverses_the_debt_witness :
  (Qc_of_Z (-10) < 0)%Qc ∧ "B" ∈ ["A"; "B"] ∧ "B" ≠ "A" ∧
  ∃ self h out v,
    single_expense "A" (Qc_of_Z (-10)) ["A"; "B"] None empty_heap = (Ok self, h) ∧
    display_transactions self h = (Ok out, h) ∧
    Detailed "A" "B" (- v)%Qc ∈ out.
Proof.
  assert (Hneg : (Qc_of_Z (-10) < 0)%Qc) by reflexivity.
  assert (Hin : "B" ∈ ["A"; "B"]) by by_decide.
  assert (Hne : "B" ≠ "A") by discriminate.
  split_and!; [exact Hneg | exact Hin | exact Hne |].
  destruct (negative_amount_reverses_the_debt "A" (Qc_of_Z (-10)) ["A"; "B"] None
              empty_heap "B" Hneg Hin Hne)
    as (self & h & out & v & Hrun & _ & _ & Hdisplay & Hline & _).
  exists self, h, out, v. split_and!; [exact Hrun | exact Hdisplay | exact Hline].
Defined.

Lemma balances_snapshot_survives_add_expense_witness :
  wf example_manager example_heap ∧ ["A"; "B"] ≠ [] ∧
  ∃ r h1 h2,
    get_balances example_manager example_heap = (Ok r, h1) ∧
    add_expense example_manager "A" (Qc_of_Z 10) ["A"; "B"] None h1 = (Ok (), h2) ∧
    floatdicts h2 !! r = balances_of example_manager example_heap.
Proof.
  assert (Hps : ["A"; "B"] ≠ []) by discriminate.
  split_and!; [exact example_wf | exact Hps |].
  exact (balances_snapshot_survives_add_expense example_manager "A" (Qc_of_Z 10)
           ["A"; "B"] None example_heap example_wf Hps).
Defined.

Lemma transactions_snapshot_follows_add_expense_witness :
  wf example_manager example_heap ∧ ["A"; "B"] ≠ [] ∧
  ∃ r h1 h2,
    get_transactions example_manager example_heap = (Ok r, h1) ∧
    add_expense example_manager "A" (Qc_of_Z 10) ["A"; "B"] None h1 = (Ok (), h2) ∧
    nesteddicts h2 !! r =
      nesteddicts example_heap !! (transactions example_manager).
Proof.
  assert (Hps : ["A"; "B"] ≠ []) by discriminate.
  split_and!; [exact example_wf | exact Hps |].
  destruct (transactions_snapshot_follows_add_expense example_manager "A"
              (Qc_of_Z 10) ["A"; "B"] None example_heap example_wf Hps)
    as (r & h1 & h2 & Hrun1 & Hrun2 & Hitems & _).
  exists r, h1, h2. split_and!; [exact Hrun1 | exact Hrun2 | exact Hitems].
Defined.
